(** * Apple Notes MCP server: sanitizer, executor and result decoding

    A shallow embedding of [src/utils/applescript.ts] and
    [src/services/appleNotesManager.ts].

    JavaScript strings are sequences of UTF-16 code units; a code unit is
    modelled as an [N] and a string as a [list N], so that the regular
    expressions of the sanitizer, [String.prototype.trim] and
    [String.prototype.split] are the functions their ECMAScript
    definitions describe. *)

From Stdlib Require Import List NArith ZArith Bool String Ascii Lia.
Import ListNotations.

Set Implicit Arguments.

(* ===================================================================== *)
(** ** JavaScript strings *)
(* ===================================================================== *)

Module Js.

Definition char := N.
Definition jsstring := list char.

(** ASCII literal as a JavaScript string. *)
Definition lit (s : string) : jsstring :=
  List.map N_of_ascii (list_ascii_of_string s).

Definition backslash : char := 92%N.
Definition dquote : char := 34%N.
Definition squote : char := 39%N.
Definition LF : char := 10%N.
Definition CR : char := 13%N.
Definition TAB : char := 9%N.
Definition comma : char := 44%N.

(** [a === b] on strings. *)
Fixpoint strict_eq (a b : jsstring) : bool :=
  match a, b with
  | [], [] => true
  | x :: a', y :: b' => N.eqb x y && strict_eq a' b'
  | _, _ => false
  end.

(** [Boolean(s)] for a string: only the empty string is falsy. *)
Definition truthy (s : jsstring) : bool :=
  match s with
  | [] => false
  | _ :: _ => true
  end.

(** [a || b] on strings. *)
Definition or_else (a b : jsstring) : jsstring :=
  if truthy a then a else b.

(** [s.replace(/c/g, r)] for a one-character pattern [c] and a replacement
    [r] without [$]: every occurrence of [c] is replaced, left to right,
    and the replacement text is not scanned again. *)
Fixpoint replaceAll (c : char) (r : jsstring) (s : jsstring) : jsstring :=
  match s with
  | [] => []
  | x :: t => if N.eqb x c then r ++ replaceAll c r t
              else x :: replaceAll c r t
  end.

(** ECMAScript WhiteSpace and LineTerminator code points, the ones
    [trim] strips. *)
Definition isWhiteSpace (c : char) : bool :=
  (N.leb 9 c && N.leb c 13)
  || N.eqb c 32 || N.eqb c 160 || N.eqb c 5760
  || (N.leb 8192 c && N.leb c 8202)
  || N.eqb c 8232 || N.eqb c 8233 || N.eqb c 8239
  || N.eqb c 8287 || N.eqb c 12288 || N.eqb c 65279.

Fixpoint trimStart (s : jsstring) : jsstring :=
  match s with
  | [] => []
  | c :: t => if isWhiteSpace c then trimStart t else s
  end.

Definition trimEnd (s : jsstring) : jsstring :=
  rev (trimStart (rev s)).

Definition trim (s : jsstring) : jsstring :=
  trimEnd (trimStart s).

(** [s.split(sep)] for a one-character separator: never the empty array,
    [''.split(',')] is [['']]. *)
Fixpoint split (sep : char) (s : jsstring) : list jsstring :=
  match s with
  | [] => [[]]
  | c :: t =>
      if N.eqb c sep then [] :: split sep t
      else match split sep t with
           | p :: ps => (c :: p) :: ps
           | [] => [[c]]
           end
  end.

(** [pieces.join(sep)]. *)
Fixpoint join (sep : char) (pieces : list jsstring) : jsstring :=
  match pieces with
  | [] => []
  | [p] => p
  | p :: ps => p ++ sep :: join sep ps
  end.

(** [String(n)] for an integer. *)
Fixpoint digits_of_uint (d : Decimal.uint) : jsstring :=
  match d with
  | Decimal.Nil => []
  | Decimal.D0 d => 48%N :: digits_of_uint d
  | Decimal.D1 d => 49%N :: digits_of_uint d
  | Decimal.D2 d => 50%N :: digits_of_uint d
  | Decimal.D3 d => 51%N :: digits_of_uint d
  | Decimal.D4 d => 52%N :: digits_of_uint d
  | Decimal.D5 d => 53%N :: digits_of_uint d
  | Decimal.D6 d => 54%N :: digits_of_uint d
  | Decimal.D7 d => 55%N :: digits_of_uint d
  | Decimal.D8 d => 56%N :: digits_of_uint d
  | Decimal.D9 d => 57%N :: digits_of_uint d
  end.

Definition string_of_Z (z : Z) : jsstring :=
  match Z.to_int z with
  | Decimal.Pos d => digits_of_uint d
  | Decimal.Neg d => 45%N :: digits_of_uint d
  end.

End Js.

Import Js.

(* ===================================================================== *)
(** ** src/utils/applescript.ts: the sanitizer *)
(* ===================================================================== *)

(** The replacement of the single-quote step: quote, double quote, quote,
    double quote, quote. *)
Definition squote_idiom : jsstring :=
  [squote; dquote; squote; dquote; squote].

Definition sanitizeForAppleScript (input : jsstring) : jsstring :=
  if negb (truthy input) then []
  else
    let s1 := replaceAll backslash [backslash; backslash] input in
    let s2 := replaceAll dquote [backslash; dquote] s1 in
    let s3 := replaceAll squote squote_idiom s2 in
    let s4 := replaceAll LF (backslash :: lit "n") s3 in
    let s5 := replaceAll CR (backslash :: lit "r") s4 in
    replaceAll TAB (backslash :: lit "t") s5.

(** *** Specification-side notions for the sanitizer *)

(** The order of the escaping steps as the specification lists it:
    backslash, double quote, single quote, newline, carriage return, tab. *)
Definition escape_steps : list (char * jsstring) :=
  [ (backslash, [backslash; backslash]);
    (dquote, [backslash; dquote]);
    (squote, squote_idiom);
    (LF, [backslash; 110%N]);
    (CR, [backslash; 114%N]);
    (TAB, [backslash; 116%N]) ].

Definition apply_steps (steps : list (char * jsstring)) (s : jsstring)
  : jsstring :=
  fold_left (fun acc step => replaceAll (fst step) (snd step) acc) steps s.

(** Replacing every occurrence of a character, said without the
    source's [replace]: each character of the text is looked at once, a
    [c] gives [r], any other character gives itself. *)
Definition replace_every (c : char) (r : jsstring) (s : jsstring)
  : jsstring :=
  flat_map (fun x => if N.eqb x c then r else [x]) s.

(** The steps of a list run one after the other, each over the whole
    result of the one before. *)
Definition escape_with (steps : list (char * jsstring)) (s : jsstring)
  : jsstring :=
  fold_left (fun acc step => replace_every (fst step) (snd step) acc) steps s.

(** What one input character becomes in the sanitized text. *)
Definition escape_char (c : char) : jsstring :=
  if N.eqb c backslash then [backslash; backslash]
  else if N.eqb c dquote then [backslash; dquote]
  else if N.eqb c squote then squote_idiom
  else if N.eqb c LF then [backslash; 110%N]
  else if N.eqb c CR then [backslash; 114%N]
  else if N.eqb c TAB then [backslash; 116%N]
  else [c].

(** How the body of a double-quoted literal ends when it is read left to
    right with backslash as the escape character: [Clean] when no
    delimiter was met and no escape is pending, [Dangling] when the body
    ends in a backslash that would escape the closing delimiter, and
    [Closed rest] when an unescaped double quote closes the literal with
    [rest] still to come. *)
Inductive body_scan : Type :=
| Clean
| Dangling
| Closed (rest : jsstring).

Fixpoint scan_body (escaped : bool) (s : jsstring) : body_scan :=
  match s with
  | [] => if escaped then Dangling else Clean
  | c :: t =>
      if escaped then scan_body false t
      else if N.eqb c backslash then scan_body true t
      else if N.eqb c dquote then Closed t
      else scan_body false t
  end.

(** The minimal template: the text between two double quotes. *)
Definition literal_template (body : jsstring) : jsstring :=
  dquote :: body ++ [dquote].

(** A test double that returns the literal argument of the template:
    the text between the first and the last character. *)
Definition literal_argument (tpl : jsstring) : jsstring :=
  removelast (tl tpl).

(** Reversal of the escape forms, left to right: backslash followed by
    backslash, double quote, n, r or t is one character, the single-quote
    idiom is one single quote, anything else stands for itself. *)
Fixpoint unescape (s : jsstring) : jsstring :=
  match s with
  | [] => []
  | c :: t =>
      if N.eqb c backslash then
        match t with
        | d :: t' =>
            if N.eqb d backslash then backslash :: unescape t'
            else if N.eqb d dquote then dquote :: unescape t'
            else if N.eqb d 110%N then LF :: unescape t'
            else if N.eqb d 114%N then CR :: unescape t'
            else if N.eqb d 116%N then TAB :: unescape t'
            else c :: unescape t
        | [] => [c]
        end
      else if N.eqb c squote then
        match t with
        | q1 :: q2 :: q3 :: q4 :: t' =>
            if N.eqb q1 dquote && N.eqb q2 squote
               && N.eqb q3 dquote && N.eqb q4 squote
            then squote :: unescape t'
            else c :: unescape t
        | _ => c :: unescape t
        end
      else c :: unescape t
  end.

(* ===================================================================== *)
(** ** src/types.ts *)
(* ===================================================================== *)

(** A [Date] is its time value, milliseconds since the epoch. *)
Definition Date := Z.

Module Note.
Record t : Type := make {
  id : jsstring;
  title : jsstring;
  content : jsstring;
  tags : list jsstring;
  created : Date;
  modified : Date
}.
End Note.

Module Folder.
Record t : Type := make {
  id : jsstring;
  name : jsstring;
  account : jsstring
}.
End Folder.

Module AppleScriptResult.
Record t : Type := make {
  success : bool;
  output : jsstring;
  error : option jsstring
}.
End AppleScriptResult.

(** The [{ success, note?, error? }] objects returned by [editNote],
    [deleteNote] and [moveNote]; an absent property is [None]. *)
Module OpResult.
Record t : Type := make {
  success : bool;
  note : option Note.t;
  error : option jsstring
}.
End OpResult.

(* ===================================================================== *)
(** ** src/utils/applescript.ts: the executor *)
(* ===================================================================== *)

Definition Buffer := list Byte.byte.

(** What the child process object emits, in the order the handlers of
    [runAppleScript] see it.  [ExitEvent None] is an exit with a [null]
    code: the child was ended by a signal. *)
Inductive child_event : Type :=
| StdoutData (chunk : Buffer)
| StderrData (chunk : Buffer)
| ErrorEvent (message : jsstring)
| ExitEvent (code : option Z).

(** The closure of the promise executor: the two chunk arrays and the
    state of the promise. *)
Record exec_state : Type := {
  chunks : list Buffer;
  errorChunks : list Buffer;
  settled : option AppleScriptResult.t
}.

Definition exec_init : exec_state :=
  {| chunks := []; errorChunks := []; settled := None |}.

(** [resolve(r)]: only the first call settles the promise. *)
Definition resolve (r : AppleScriptResult.t) (st : exec_state) : exec_state :=
  match settled st with
  | Some _ => st
  | None => {| chunks := chunks st; errorChunks := errorChunks st;
               settled := Some r |}
  end.

(** The text of [code] in a template string. *)
Definition code_text (code : option Z) : jsstring :=
  match code with
  | Some n => string_of_Z n
  | None => lit "null"
  end.

(** [code === 0]. *)
Definition code_is_zero (code : option Z) : bool :=
  match code with
  | Some n => Z.eqb n 0
  | None => false
  end.

Section Executor.

(** [buf.toString('utf8')], a function of the Node runtime. *)
Variable toString_utf8 : Buffer -> jsstring.

Definition on_event (st : exec_state) (ev : child_event) : exec_state :=
  match ev with
  | StdoutData chunk =>
      {| chunks := chunks st ++ [chunk]; errorChunks := errorChunks st;
         settled := settled st |}
  | StderrData chunk =>
      {| chunks := chunks st; errorChunks := errorChunks st ++ [chunk];
         settled := settled st |}
  | ErrorEvent message =>
      resolve
        (AppleScriptResult.make false []
           (Some (lit "Failed to execute AppleScript: " ++ message)))
        st
  | ExitEvent code =>
      let output := trim (toString_utf8 (List.concat (chunks st))) in
      let errorOutput := trim (toString_utf8 (List.concat (errorChunks st))) in
      if code_is_zero code then
        resolve (AppleScriptResult.make true output None) st
      else
        resolve
          (AppleScriptResult.make false []
             (Some (or_else errorOutput
                      (lit "AppleScript exited with code " ++ code_text code))))
          st
  end.

(** The promise after the child emitted [events]: [None] while it is
    still pending. *)
Definition promise_of (events : list child_event)
  : option AppleScriptResult.t :=
  settled (fold_left on_event events exec_init).

End Executor.

(** The arguments [runAppleScript] passes to [spawn]. *)
Record spawn_call : Type := {
  command : jsstring;
  args : list jsstring;
  timeout : N
}.

Definition osascript_call (script : jsstring) : spawn_call :=
  {| command := lit "osascript";
     args := [lit "-e"; script];
     timeout := 10000 |}.

(** What the call of [spawn] inside the promise executor comes to.  It
    throws before there is a child to listen to (the runtime refuses an
    argument, or meets an error it does not report as an event), and the
    exception, raised inside the executor, rejects the promise; or it
    returns a child, known here by the events the child emits. *)
Inductive spawn_result : Type :=
| SpawnThrows (message : jsstring)
| Spawned (events : list child_event).

(* ===================================================================== *)
(** ** Effects: the world, thrown errors, pending promises *)
(* ===================================================================== *)

Section Effects.

(** The state of everything outside the program. *)
Variable W : Type.

(** How an [async] computation ends: it never settles, it throws
    [new Error(message)], or it returns a value. *)
Inductive Completion (A : Type) : Type :=
| Pending
| Thrown (message : jsstring) (w : W)
| Returned (a : A) (w : W).

Arguments Pending {A}.
Arguments Thrown {A} message w.

Definition M (A : Type) : Type := W -> Completion A.

Definition ret {A} (a : A) : M A := fun w => Returned a w.

Definition throw {A} (message : jsstring) : M A :=
  fun w => Thrown message w.

Definition bind {A B} (m : M A) (k : A -> M B) : M B :=
  fun w =>
    match m w with
    | Pending => Pending
    | Thrown message w' => Thrown message w'
    | Returned a w' => k a w'
    end.

(** [xs.map(f)] when [f] has effects: left to right. *)
Fixpoint mapM {A B} (f : A -> M B) (xs : list A) : M (list B) :=
  match xs with
  | [] => ret []
  | x :: xs' =>
      bind (f x) (fun y => bind (mapM f xs') (fun ys => ret (y :: ys)))
  end.

(** What the program takes from the Node runtime. *)
Record Runtime : Type := {
  spawn : spawn_call -> W -> spawn_result * W;
  randomUUID : W -> jsstring * W;
  newDate : W -> Date * W;
  utf8 : Buffer -> jsstring
}.

Definition lift {A} (f : W -> A * W) : M A :=
  fun w => let (a, w') := f w in Returned a w'.

(** [runAppleScript(script)], awaited.  The executor of the promise
    calls [spawn]: when that throws the promise is rejected and the
    [await] throws; otherwise the events of the child are handled and the
    caller resumes when the promise is resolved. *)
Definition runAppleScript (rt : Runtime) (script : jsstring)
  : M AppleScriptResult.t :=
  fun w =>
    let (spawned, w') := spawn rt (osascript_call script) w in
    match spawned with
    | SpawnThrows message => Thrown message w'
    | Spawned events =>
        match promise_of (utf8 rt) events with
        | Some r => Returned r w'
        | None => Pending
        end
    end.

End Effects.

Arguments Pending {W A}.
Arguments Thrown {W A} message w.
Arguments Returned {W A} a w.
Arguments ret {W A} a _.
Arguments throw {W A} message _.

Declare Scope js_scope.
Notation "x <- m ;; k" := (bind m (fun x => k))
  (at level 61, m at next level, right associativity) : js_scope.

(* ===================================================================== *)
(** ** src/services/appleNotesManager.ts *)
(* ===================================================================== *)

(** [if (!content) return ''; return content.replace(/\n/g, '<br>')]. *)
Definition formatContent (content : jsstring) : jsstring :=
  if negb (truthy content) then []
  else replaceAll LF (lit "<br>") content.

(** A template literal of the source, line by line: the line break after
    the opening backquote, each line with its indentation, and the
    indentation before the closing backquote. *)
Definition template (lines : list (nat * jsstring)) (closing : nat)
  : jsstring :=
  LF :: flat_map (fun l => repeat 32%N (fst l) ++ snd l ++ [LF]) lines
     ++ repeat 32%N closing.

(** A double-quoted piece of a script. *)
Definition quoted (body : jsstring) : jsstring := literal_template body.

(** The statement all three creation scripts share. *)
Definition make_note_statement (sanitizedTitle sanitizedContent : jsstring)
  : jsstring :=
  lit "set newNote to make new note with properties {name:"
  ++ quoted sanitizedTitle ++ lit ", body:" ++ quoted sanitizedContent
  ++ lit "}".

Definition getAccounts_script : jsstring :=
    template
    [
      (6, lit "tell application " ++ quoted (lit "Notes"));
      (8, lit "set accountList to {}");
      (8, lit "repeat with anAccount in accounts");
      (10, lit "set end of accountList to name of anAccount");
      (8, lit "end repeat");
      (8, lit "return accountList");
      (6, lit "end tell")
    ] 4.

Definition createNote_folder_script
  (sanitizedAccount sanitizedFolder sanitizedTitle sanitizedContent : jsstring)
  : jsstring :=
    template
    [
      (8, lit "tell application " ++ quoted (lit "Notes"));
      (10, lit "tell account " ++ quoted sanitizedAccount);
      (12, lit "set targetFolder to missing value");
      (12, lit "repeat with aFolder in folders");
      (14, lit "if name of aFolder is " ++ quoted sanitizedFolder
           ++ lit " then");
      (16, lit "set targetFolder to aFolder");
      (16, lit "exit repeat");
      (14, lit "end if");
      (12, lit "end repeat");
      (12, []);
      (12, lit "if targetFolder is missing value then");
      (14, lit "return " ++ quoted (lit "folder not found"));
      (12, lit "end if");
      (12, []);
      (12, lit "tell targetFolder");
      (14, make_note_statement sanitizedTitle sanitizedContent);
      (12, lit "end tell");
      (12, lit "return " ++ quoted (lit "created"));
      (10, lit "end tell");
      (8, lit "end tell")
    ] 6.

Definition createNote_simple_script
  (sanitizedTitle sanitizedContent : jsstring) : jsstring :=
    template
    [
      (8, lit "tell application " ++ quoted (lit "Notes"));
      (10, make_note_statement sanitizedTitle sanitizedContent);
      (10, lit "return " ++ quoted (lit "created"));
      (8, lit "end tell")
    ] 6.

Definition createNote_account_script
  (sanitizedAccount sanitizedTitle sanitizedContent : jsstring) : jsstring :=
    template
    [
      (8, lit "tell application " ++ quoted (lit "Notes"));
      (10, lit "tell account " ++ quoted sanitizedAccount);
      (12, make_note_statement sanitizedTitle sanitizedContent);
      (12, lit "return " ++ quoted (lit "created"));
      (10, lit "end tell");
      (8, lit "end tell")
    ] 6.

Definition searchNotes_script (sanitizedAccount sanitizedQuery : jsstring)
  : jsstring :=
    template
    [
      (6, lit "tell application " ++ quoted (lit "Notes"));
      (8, lit "tell account " ++ quoted sanitizedAccount);
      (10, lit "set matchingNotes to notes whose body contains "
           ++ quoted sanitizedQuery);
      (10, lit "set resultList to {}");
      (10, []);
      (10, lit "repeat with currentNote in matchingNotes");
      (12, lit "set noteName to name of currentNote");
      (12, lit "set end of resultList to noteName");
      (10, lit "end repeat");
      (10, []);
      (10, lit "return resultList");
      (8, lit "end tell");
      (6, lit "end tell")
    ] 4.

Definition getNoteContent_script (sanitizedAccount sanitizedTitle : jsstring)
  : jsstring :=
    template
    [
      (6, lit "tell application " ++ quoted (lit "Notes"));
      (8, lit "tell account " ++ quoted sanitizedAccount);
      (10, lit "get body of note " ++ quoted sanitizedTitle);
      (8, lit "end tell");
      (6, lit "end tell")
    ] 4.

Definition editNote_script
  (sanitizedAccount sanitizedTitle sanitizedContent : jsstring) : jsstring :=
    template
    [
      (6, lit "tell application " ++ quoted (lit "Notes"));
      (8, lit "tell account " ++ quoted sanitizedAccount);
      (10, lit "set foundNote to false");
      (10, lit "set noteList to every note");
      (10, lit "repeat with aNote in noteList");
      (12, lit "if name of aNote is " ++ quoted sanitizedTitle ++ lit " then");
      (14, lit "set body of aNote to " ++ quoted sanitizedContent);
      (14, lit "set foundNote to true");
      (14, lit "exit repeat");
      (12, lit "end if");
      (10, lit "end repeat");
      (10, lit "if foundNote then");
      (12, lit "return " ++ quoted (lit "success"));
      (10, lit "else");
      (12, lit "return " ++ quoted (lit "not found"));
      (10, lit "end if");
      (8, lit "end tell");
      (6, lit "end tell")
    ] 4.

Definition deleteNote_script (sanitizedAccount sanitizedTitle : jsstring)
  : jsstring :=
    template
    [
      (6, lit "tell application " ++ quoted (lit "Notes"));
      (8, lit "tell account " ++ quoted sanitizedAccount);
      (10, lit "set foundNote to false");
      (10, lit "set noteList to every note");
      (10, lit "repeat with aNote in noteList");
      (12, lit "if name of aNote is " ++ quoted sanitizedTitle ++ lit " then");
      (14, lit "delete aNote");
      (14, lit "set foundNote to true");
      (14, lit "exit repeat");
      (12, lit "end if");
      (10, lit "end repeat");
      (10, lit "if foundNote then");
      (12, lit "return " ++ quoted (lit "success"));
      (10, lit "else");
      (12, lit "return " ++ quoted (lit "not found"));
      (10, lit "end if");
      (8, lit "end tell");
      (6, lit "end tell")
    ] 4.

Definition getFolders_script (sanitizedAccount : jsstring) : jsstring :=
    template
    [
      (6, lit "tell application " ++ quoted (lit "Notes"));
      (8, lit "tell account " ++ quoted sanitizedAccount);
      (10, lit "set folderList to {}");
      (10, lit "repeat with aFolder in folders");
      (12, lit "set folderName to name of aFolder");
      (12, lit "set end of folderList to folderName");
      (10, lit "end repeat");
      (10, lit "return folderList");
      (8, lit "end tell");
      (6, lit "end tell")
    ] 4.

Definition moveNote_script
  (sanitizedAccount sanitizedFolder sanitizedTitle : jsstring) : jsstring :=
    template
    [
      (6, lit "tell application " ++ quoted (lit "Notes"));
      (8, lit "tell account " ++ quoted sanitizedAccount);
      (10, lit "set foundNote to false");
      (10, lit "set targetFolder to missing value");
      (10, []);
      (10, lit "-- Find the target folder");
      (10, lit "repeat with aFolder in folders");
      (12, lit "if name of aFolder is " ++ quoted sanitizedFolder
           ++ lit " then");
      (14, lit "set targetFolder to aFolder");
      (14, lit "exit repeat");
      (12, lit "end if");
      (10, lit "end repeat");
      (10, []);
      (10, lit "if targetFolder is missing value then");
      (12, lit "return " ++ quoted (lit "folder not found"));
      (10, lit "end if");
      (10, []);
      (10, lit "-- Find and move the note");
      (10, lit "set allNotes to every note");
      (10, lit "repeat with aNote in allNotes");
      (12, lit "if name of aNote is " ++ quoted sanitizedTitle ++ lit " then");
      (14, lit "move aNote to targetFolder");
      (14, lit "set foundNote to true");
      (14, lit "exit repeat");
      (12, lit "end if");
      (10, lit "end repeat");
      (10, []);
      (10, lit "if foundNote then");
      (12, lit "return " ++ quoted (lit "success"));
      (10, lit "else");
      (12, lit "return " ++ quoted (lit "note not found"));
      (10, lit "end if");
      (8, lit "end tell");
      (6, lit "end tell")
    ] 4.

(** [if (folder)] for the optional parameter. *)
Definition given (folder : option jsstring) : bool :=
  match folder with
  | Some f => truthy f
  | None => false
  end.

Section Manager.

Local Open Scope js_scope.

Variable W : Type.
Variable rt : Runtime W.

(** The function bound to the imported name [runAppleScript]: the
    executor of this program, [runAppleScript rt], or a test double. *)
Variable exec : jsstring -> M W AppleScriptResult.t.

(** [this.accountName]. *)
Variable accountName : jsstring.

Definition getAccounts : M W (list jsstring) :=
  let script := getAccounts_script in
  result <- exec script ;;
  if negb (AppleScriptResult.success result) then
    throw (lit "Failed to get accounts")
  else
    ret (filter truthy
           (map trim (split comma (AppleScriptResult.output result)))).

(** The object literal [createNote] returns. *)
Definition new_note (title content : jsstring) (tags : list jsstring)
  : M W Note.t :=
  id <- lift (randomUUID rt) ;;
  created <- lift (newDate rt) ;;
  modified <- lift (newDate rt) ;;
  ret (Note.make id title content tags created modified).

Definition createNote (title content : jsstring) (tags : list jsstring)
  (folder : option jsstring) : M W Note.t :=
  let sanitizedTitle := sanitizeForAppleScript title in
  let formattedContent := formatContent content in
  let sanitizedContent := sanitizeForAppleScript formattedContent in
  let sanitizedAccount := sanitizeForAppleScript accountName in
  let script :=
    match folder with
    | Some f =>
        if truthy f then
          let sanitizedFolder := sanitizeForAppleScript f in
          createNote_folder_script sanitizedAccount sanitizedFolder
            sanitizedTitle sanitizedContent
        else createNote_simple_script sanitizedTitle sanitizedContent
    | None => createNote_simple_script sanitizedTitle sanitizedContent
    end in
  result <- exec script ;;
  if strict_eq (AppleScriptResult.output result) (lit "folder not found") then
    throw (lit "Specified folder not found")
  else if negb (AppleScriptResult.success result) && negb (given folder) then
    let accountScript :=
      createNote_account_script sanitizedAccount sanitizedTitle
        sanitizedContent in
    accountResult <- exec accountScript ;;
    if negb (AppleScriptResult.success accountResult) then
      throw (lit "Failed to create note")
    else new_note title content tags
  else if negb (AppleScriptResult.success result) then
    throw (lit "Failed to create note")
  else new_note title content tags.

Definition searchNotes (query : jsstring) : M W (list Note.t) :=
  let sanitizedQuery := sanitizeForAppleScript query in
  let sanitizedAccount := sanitizeForAppleScript accountName in
  let script := searchNotes_script sanitizedAccount sanitizedQuery in
  result <- exec script ;;
  if negb (AppleScriptResult.success result) then
    throw (lit "Failed to search notes")
  else if negb (truthy (AppleScriptResult.output result))
          || strict_eq (trim (AppleScriptResult.output result)) [] then
    ret []
  else
    mapM (fun title =>
            id <- lift (randomUUID rt) ;;
            created <- lift (newDate rt) ;;
            modified <- lift (newDate rt) ;;
            ret (Note.make id (trim title) [] [] created modified))
         (filter truthy (split comma (AppleScriptResult.output result))).

Definition getNoteContent (title : jsstring) : M W jsstring :=
  let sanitizedTitle := sanitizeForAppleScript title in
  let sanitizedAccount := sanitizeForAppleScript accountName in
  let script := getNoteContent_script sanitizedAccount sanitizedTitle in
  result <- exec script ;;
  if negb (AppleScriptResult.success result) then
    throw (lit "Failed to get note content")
  else ret (AppleScriptResult.output result).

Definition editNote (title newContent : jsstring) : M W OpResult.t :=
  let sanitizedTitle := sanitizeForAppleScript title in
  let sanitizedAccount := sanitizeForAppleScript accountName in
  let formattedContent := formatContent newContent in
  let sanitizedContent := sanitizeForAppleScript formattedContent in
  let editScript :=
    editNote_script sanitizedAccount sanitizedTitle sanitizedContent in
  editResult <- exec editScript ;;
  if negb (AppleScriptResult.success editResult) then
    ret (OpResult.make false None (Some (lit "Failed to update note")))
  else if strict_eq (AppleScriptResult.output editResult) (lit "not found") then
    ret (OpResult.make false None (Some (lit "Note not found")))
  else
    id <- lift (randomUUID rt) ;;
    created <- lift (newDate rt) ;;
    modified <- lift (newDate rt) ;;
    ret (OpResult.make true
           (Some (Note.make id title newContent [] created modified))
           None).

Definition deleteNote (title : jsstring) : M W OpResult.t :=
  let sanitizedTitle := sanitizeForAppleScript title in
  let sanitizedAccount := sanitizeForAppleScript accountName in
  let deleteScript := deleteNote_script sanitizedAccount sanitizedTitle in
  deleteResult <- exec deleteScript ;;
  if negb (AppleScriptResult.success deleteResult) then
    ret (OpResult.make false None (Some (lit "Failed to delete note")))
  else if strict_eq (AppleScriptResult.output deleteResult) (lit "not found")
  then ret (OpResult.make false None (Some (lit "Note not found")))
  else ret (OpResult.make true None None).

Definition getFolders : M W (list Folder.t) :=
  let sanitizedAccount := sanitizeForAppleScript accountName in
  let script := getFolders_script sanitizedAccount in
  result <- exec script ;;
  if negb (AppleScriptResult.success result) then
    throw (lit "Failed to get folders")
  else if negb (truthy (AppleScriptResult.output result))
          || strict_eq (trim (AppleScriptResult.output result)) [] then
    ret []
  else
    folders <- mapM (fun name =>
                       id <- lift (randomUUID rt) ;;
                       ret (Folder.make id (trim name) accountName))
                    (split comma (AppleScriptResult.output result)) ;;
    ret (filter (fun folder => truthy (Folder.name folder)) folders).

Definition moveNote (noteTitle targetFolderName : jsstring)
  : M W OpResult.t :=
  let sanitizedTitle := sanitizeForAppleScript noteTitle in
  let sanitizedFolder := sanitizeForAppleScript targetFolderName in
  let sanitizedAccount := sanitizeForAppleScript accountName in
  let moveScript :=
    moveNote_script sanitizedAccount sanitizedFolder sanitizedTitle in
  result <- exec moveScript ;;
  if negb (AppleScriptResult.success result) then
    ret (OpResult.make false None (Some (lit "Failed to move note")))
  else if strict_eq (AppleScriptResult.output result) (lit "folder not found")
  then ret (OpResult.make false None (Some (lit "Target folder not found")))
  else if strict_eq (AppleScriptResult.output result) (lit "note not found")
  then ret (OpResult.make false None (Some (lit "Note not found")))
  else ret (OpResult.make true None None).

End Manager.

(* ===================================================================== *)
(** ** Notions the statements use *)
(* ===================================================================== *)

(** The chunks the two [data] handlers have pushed after [events]. *)
Fixpoint stdout_chunks (events : list child_event) : list Buffer :=
  match events with
  | [] => []
  | StdoutData chunk :: rest => chunk :: stdout_chunks rest
  | _ :: rest => stdout_chunks rest
  end.

Fixpoint stderr_chunks (events : list child_event) : list Buffer :=
  match events with
  | [] => []
  | StderrData chunk :: rest => chunk :: stderr_chunks rest
  | _ :: rest => stderr_chunks rest
  end.

(** A text whose first character, if any, is not white space. *)
Definition starts_clean (s : jsstring) : Prop :=
  match s with
  | [] => True
  | c :: _ => isWhiteSpace c = false
  end.

(** The [data] events of the two streams. *)
Definition is_data (ev : child_event) : bool :=
  match ev with
  | StdoutData _ | StderrData _ => true
  | ErrorEvent _ | ExitEvent _ => false
  end.

(** The script [createNote] runs first. *)
Definition createNote_script (accountName title content : jsstring)
  (folder : option jsstring) : jsstring :=
  let sanitizedTitle := sanitizeForAppleScript title in
  let sanitizedContent := sanitizeForAppleScript (formatContent content) in
  if given folder then
    createNote_folder_script (sanitizeForAppleScript accountName)
      (sanitizeForAppleScript (match folder with Some f => f | None => [] end))
      sanitizedTitle sanitizedContent
  else createNote_simple_script sanitizedTitle sanitizedContent.

(** The script [createNote] runs when the first one failed and no folder
    was given. *)
Definition createNote_retry_script (accountName title content : jsstring)
  : jsstring :=
  createNote_account_script (sanitizeForAppleScript accountName)
    (sanitizeForAppleScript title)
    (sanitizeForAppleScript (formatContent content)).

(** The decoding of [moveNote] with the comparison of the output against a
    sentinel left open, so that an output matching both sentinels can be
    spoken of; [moveNote] is the instance at [===]. *)
Definition moveNote_decode_with (matches : jsstring -> jsstring -> bool)
  (result : AppleScriptResult.t) : OpResult.t :=
  if negb (AppleScriptResult.success result) then
    OpResult.make false None (Some (lit "Failed to move note"))
  else if matches (AppleScriptResult.output result) (lit "folder not found")
  then OpResult.make false None (Some (lit "Target folder not found"))
  else if matches (AppleScriptResult.output result) (lit "note not found")
  then OpResult.make false None (Some (lit "Note not found"))
  else OpResult.make true None None.

(** The decoding of [moveNote] with its two sentinel tests in the other
    order, the note sentinel first. *)
Definition moveNote_decode_note_first (result : AppleScriptResult.t)
  : OpResult.t :=
  if negb (AppleScriptResult.success result) then
    OpResult.make false None (Some (lit "Failed to move note"))
  else if strict_eq (AppleScriptResult.output result) (lit "note not found")
  then OpResult.make false None (Some (lit "Note not found"))
  else if strict_eq (AppleScriptResult.output result) (lit "folder not found")
  then OpResult.make false None (Some (lit "Target folder not found"))
  else OpResult.make true None None.

(** An outcome with its diagnostic text removed. *)
Definition scrub (r : AppleScriptResult.t) : AppleScriptResult.t :=
  AppleScriptResult.make (AppleScriptResult.success r)
    (AppleScriptResult.output r) None.

Definition map_completion {W A B} (f : A -> B) (c : Completion W A)
  : Completion W B :=
  match c with
  | Pending => Pending
  | Thrown message w => Thrown message w
  | Returned a w => Returned (f a) w
  end.

(** Two executors whose outcomes differ at most in the error text. *)
Definition same_but_error {W}
  (exec1 exec2 : jsstring -> M W AppleScriptResult.t) : Prop :=
  forall script w,
    map_completion scrub (exec1 script w)
    = map_completion scrub (exec2 script w).

(** A runtime to run the program on: the world is the number of calls
    made so far, the [n]-th call, when it spawns a child, gets the events
    [behaviour n]; text is ASCII. *)
Definition scripted_runtime (behaviour : nat -> list child_event)
  : Runtime nat :=
  {| spawn := fun _ n => (Spawned (behaviour n), S n);
     randomUUID := fun n => (lit "id" ++ string_of_Z (Z.of_nat n), S n);
     newDate := fun n => (Z.of_nat n, S n);
     utf8 := map Byte.to_N |}.

(** A child that writes [stdout] and [stderr] and exits with [code]. *)
Definition exits_with (code : Z) (stdout stderr : string)
  : list child_event :=
  [ StdoutData (list_byte_of_string stdout);
    StderrData (list_byte_of_string stderr);
    ExitEvent (Some code) ].

(** Every command ends the same way. *)
Definition always_exits (code : Z) (stdout stderr : string) : Runtime nat :=
  scripted_runtime (fun _ => exits_with code stdout stderr).

(** The interpreter binary is missing: no child, an [error] event. *)
Definition never_spawns : Runtime nat :=
  scripted_runtime (fun _ => [ErrorEvent (lit "spawn osascript ENOENT")]).

(** A test double for the executor that reports success with an output
    of two spaces. *)
Definition blank_executor : jsstring -> M nat AppleScriptResult.t :=
  fun _ n => Returned (AppleScriptResult.make true (lit "  ") None) (S n).

(** Every command exits with code 1 and an error text. *)
Definition failing_runtime : Runtime nat :=
  always_exits 1 "" "execution error (-1728)".

(** A child that exits with code 0 while its output is still in the
    pipe: the [exit] event comes first, the [data] event after it. *)
Definition late_output : list child_event :=
  [ ExitEvent (Some 0%Z);
    StdoutData (list_byte_of_string "created") ].

(** The message of a runtime that refuses an argument of [spawn]. *)
Definition refusal : jsstring :=
  lit "The argument 'args[1]' must be a string without null bytes".

(** A runtime whose [spawn] throws. *)
Definition refusing_runtime : Runtime nat :=
  {| spawn := fun _ n => (SpawnThrows refusal, S n);
     randomUUID := fun n => (lit "id" ++ string_of_Z (Z.of_nat n), S n);
     newDate := fun n => (Z.of_nat n, S n);
     utf8 := map Byte.to_N |}.

(** The first command fails, the later ones print [created]. *)
Definition fails_once (n : nat) : list child_event :=
  match n with
  | O => exits_with 1 "" "execution error: Notes got an error (-1728)"
  | S _ => exits_with 0 "created" ""
  end.

(** The decoding order of the specification, read on [createNote]: a
    failed outcome of the command it runs makes it throw. *)
Definition createNote_failed_outcome_throws : Prop :=
  forall (rt : Runtime nat) exec accountName title content tags folder
         w r w',
    exec (createNote_script accountName title content folder) w
    = Returned r w' ->
    AppleScriptResult.success r = false ->
    exists message w'',
      createNote rt exec accountName title content tags folder w
      = Thrown message w''.

(** Splitting at commas, read on [searchNotes] as a count: an output
    with a comma in it is decoded as two or more notes. *)
Definition comma_output_gives_several_notes : Prop :=
  forall (rt : Runtime nat) exec accountName query w r w' notes w'',
    exec (searchNotes_script (sanitizeForAppleScript accountName)
            (sanitizeForAppleScript query)) w = Returned r w' ->
    AppleScriptResult.success r = true ->
    In comma (AppleScriptResult.output r) ->
    searchNotes rt exec accountName query w = Returned notes w'' ->
    2 <= List.length notes.

(* ===================================================================== *)
(** ** src/index.ts: rate limiting and the tool handlers *)
(* ===================================================================== *)

Definition RATE_LIMIT_WINDOW : Z := 60000.
Definition MAX_REQUESTS_PER_WINDOW : Z := 30.

Module RateWindow.
Record t : Type := make {
  count : Z;
  resetTime : Z
}.
End RateWindow.

(** [requestCounts], a [Map] from tool names to windows of which only
    [get] and [set] are used: a lookup function. *)
Definition RateMap : Type := jsstring -> option RateWindow.t.

Definition map_empty : RateMap := fun _ => None.

Definition map_get (m : RateMap) (key : jsstring) : option RateWindow.t :=
  m key.

Definition map_set (m : RateMap) (key : jsstring) (v : RateWindow.t)
  : RateMap :=
  fun k => if strict_eq k key then Some v else m k.

(** The state of the server process: the rate-limiter map and the world
    outside. *)
Record Server (W : Type) : Type := {
  requestCounts : RateMap;
  world : W
}.

(** What a tool handler returns: one text item and the [isError] flag,
    [false] when the property is absent. *)
Record ToolResponse : Type := {
  text : jsstring;
  isError : bool
}.

(** [s.startsWith(p)] and [s.includes(sub)]. *)
Fixpoint startsWith (s p : jsstring) : bool :=
  match p, s with
  | [], _ => true
  | x :: p', y :: s' => N.eqb y x && startsWith s' p'
  | _ :: _, [] => false
  end.

Fixpoint includes (s sub : jsstring) : bool :=
  startsWith s sub
  || match s with
     | [] => false
     | _ :: t => includes t sub
     end.

(** [pieces.join(sep)] for a separator of any length. *)
Fixpoint join_with (sep : jsstring) (pieces : list jsstring) : jsstring :=
  match pieces with
  | [] => []
  | [p] => p
  | p :: ps => p ++ sep ++ join_with sep ps
  end.

(** [o || d] for an optional string property. *)
Definition opt_or_else (o : option jsstring) (d : jsstring) : jsstring :=
  match o with
  | Some s => or_else s d
  | None => d
  end.

(** The check mark and the bullet of the messages. *)
Definition check_mark : char := 9989%N.
Definition bullet : char := 8226%N.

(** [process.env.APPLE_NOTES_ACCOUNT || "iCloud"]. *)
Definition configured_account (env : option jsstring) : jsstring :=
  opt_or_else env (lit "iCloud").

Definition maxTitleLength : nat := 255.

(** The characters the title pattern excludes: less-than, greater-than,
    colon, double quote, bar, question mark, star and the control
    characters up to 31. *)
Definition title_char_ok (c : char) : bool :=
  negb (N.eqb c 60 || N.eqb c 62 || N.eqb c 58 || N.eqb c dquote
        || N.eqb c 124 || N.eqb c 63 || N.eqb c 42 || N.leb c 31).

(** The [title] schema of the tools: at least one character, at most
    [maxTitleLength], all of them allowed by the pattern. *)
Definition title_schema (title : jsstring) : bool :=
  Nat.leb 1 (List.length title)
  && Nat.leb (List.length title) maxTitleLength
  && forallb title_char_ok title.

Section Tools.

Local Open Scope js_scope.

Variable W : Type.
Variable rt : Runtime W.
Variable exec : jsstring -> M W AppleScriptResult.t.

(** The account the server was started with: the manager's
    [this.accountName] and the [accountName] of the messages. *)
Variable accountName : jsstring.

(** A computation on the world, run in the server. *)
Definition in_world {A} (m : M W A) : M (Server W) A :=
  fun s =>
    match m (world s) with
    | Pending => Pending
    | Thrown message w =>
        Thrown message {| requestCounts := requestCounts s; world := w |}
    | Returned a w =>
        Returned a {| requestCounts := requestCounts s; world := w |}
    end.

(** [try { m } catch (error) { h(error.message) }]: every value thrown
    here is an [Error]. *)
Definition try_catch {S A} (m : M S A) (h : jsstring -> M S A) : M S A :=
  fun s =>
    match m s with
    | Pending => Pending
    | Thrown message s' => h message s'
    | Returned a s' => Returned a s'
    end.

(** [Date.now()]: the time value of the clock [new Date()] reads. *)
Definition dateNow : M (Server W) Z := in_world (lift (newDate rt)).

Definition checkRateLimit (toolName : jsstring) : M (Server W) unit :=
  now <- dateNow ;;
  fun s =>
    let key := toolName in
    let limit := map_get (requestCounts s) key in
    match limit with
    | None =>
        Returned tt
          {| requestCounts :=
               map_set (requestCounts s) key
                 (RateWindow.make 1 (now + RATE_LIMIT_WINDOW));
             world := world s |}
    | Some l =>
        if Z.ltb (RateWindow.resetTime l) now then
          Returned tt
            {| requestCounts :=
                 map_set (requestCounts s) key
                   (RateWindow.make 1 (now + RATE_LIMIT_WINDOW));
               world := world s |}
        else if Z.leb MAX_REQUESTS_PER_WINDOW (RateWindow.count l) then
          Thrown (lit "Rate limit exceeded. Please try again later.") s
        else
          Returned tt
            {| requestCounts :=
                 map_set (requestCounts s) key
                   (RateWindow.make (RateWindow.count l + 1)
                      (RateWindow.resetTime l));
               world := world s |}
    end.

Definition text_response (message : jsstring) : ToolResponse :=
  {| text := message; isError := false |}.

Definition error_response (message : jsstring) : ToolResponse :=
  {| text := message; isError := true |}.

(** The [catch] clause of every tool but [create-note] and
    [list-accounts]: the message of a rate-limit error, the fixed text
    otherwise. *)
Definition rate_limit_or (fixed : jsstring) (message : jsstring)
  : M (Server W) ToolResponse :=
  ret (error_response
         (if includes message (lit "Rate limit") then message else fixed)).

(** [create-note].  [createNote] is typed [Note | null]; the [null]
    branch of the handler is kept. *)
Definition create_note_tool (title content : jsstring)
  (tags : option (list jsstring)) (folder : option jsstring)
  : M (Server W) ToolResponse :=
  try_catch
    (_ <- checkRateLimit (lit "create-note") ;;
     created <- in_world
                  (createNote rt exec accountName title content
                     (match tags with Some l => l | None => [] end) folder) ;;
     match Some created with
     | None => ret (error_response (lit "Failed to create note"))
     | Some note =>
         let message :=
           if given folder then
             check_mark :: lit " Note created successfully in folder "
             ++ quoted (match folder with Some f => f | None => [] end)
             ++ lit ": " ++ quoted (Note.title note)
           else
             check_mark :: lit " Note created successfully: "
             ++ quoted (Note.title note) in
         ret (text_response message)
     end)
    (fun message => ret (error_response message)).

Definition search_notes_tool (query : jsstring) : M (Server W) ToolResponse :=
  try_catch
    (_ <- checkRateLimit (lit "search-notes") ;;
     notes <- in_world (searchNotes rt exec accountName query) ;;
     let message :=
       match notes with
       | [] => lit "No notes found matching your query"
       | _ :: _ =>
           lit "Found " ++ string_of_Z (Z.of_nat (List.length notes))
           ++ lit " notes:" ++ LF
           :: join LF
                (map (fun note => bullet :: lit " " ++ Note.title note) notes)
       end in
     ret (text_response message))
    (rate_limit_or (lit "Failed to search notes")).

Definition get_note_content_tool (title : jsstring)
  : M (Server W) ToolResponse :=
  try_catch
    (_ <- checkRateLimit (lit "get-note-content") ;;
     content <- in_world (getNoteContent exec accountName title) ;;
     ret (text_response (or_else content (lit "Note not found"))))
    (rate_limit_or (lit "Failed to retrieve note")).

Definition edit_note_tool (title newContent : jsstring)
  : M (Server W) ToolResponse :=
  try_catch
    (_ <- checkRateLimit (lit "edit-note") ;;
     result <- in_world (editNote rt exec accountName title newContent) ;;
     if negb (OpResult.success result) then
       ret (error_response
              (opt_or_else (OpResult.error result)
                 (lit "Failed to edit note")))
     else
       ret (text_response
              (check_mark :: lit " Note " ++ quoted title
               ++ lit " has been updated successfully")))
    (rate_limit_or (lit "Failed to edit note")).

Definition delete_note_tool (title : jsstring) : M (Server W) ToolResponse :=
  try_catch
    (_ <- checkRateLimit (lit "delete-note") ;;
     result <- in_world (deleteNote exec accountName title) ;;
     if negb (OpResult.success result) then
       ret (error_response
              (opt_or_else (OpResult.error result)
                 (lit "Failed to delete note")))
     else
       ret (text_response
              (check_mark :: lit " Note " ++ quoted title
               ++ lit " has been deleted successfully")))
    (rate_limit_or (lit "Failed to delete note")).

Definition list_accounts_tool : M (Server W) ToolResponse :=
  try_catch
    (accounts <- in_world (getAccounts exec) ;;
     ret (text_response
            (lit "Available accounts: " ++ join_with (lit ", ") accounts
             ++ LF :: lit "Current account: " ++ accountName)))
    (fun _ => ret (error_response (lit "Failed to list accounts"))).

Definition list_folders_tool : M (Server W) ToolResponse :=
  try_catch
    (_ <- checkRateLimit (lit "list-folders") ;;
     folders <- in_world (getFolders rt exec accountName) ;;
     match folders with
     | [] => ret (text_response (lit "No folders found in the current account"))
     | _ :: _ =>
         let message :=
           lit "Folders in " ++ accountName ++ lit ":" ++ LF
           :: join LF (map (fun f => bullet :: lit " " ++ Folder.name f)
                         folders) in
         ret (text_response message)
     end)
    (rate_limit_or (lit "Failed to list folders")).

Definition move_note_tool (title targetFolder : jsstring)
  : M (Server W) ToolResponse :=
  try_catch
    (_ <- checkRateLimit (lit "move-note") ;;
     result <- in_world (moveNote exec accountName title targetFolder) ;;
     if negb (OpResult.success result) then
       ret (error_response
              (opt_or_else (OpResult.error result)
                 (lit "Failed to move note")))
     else
       ret (text_response
              (check_mark :: lit " Note " ++ quoted title
               ++ lit " has been moved to folder " ++ quoted targetFolder)))
    (rate_limit_or (lit "Failed to move note")).

End Tools.

(* ===================================================================== *)
(** ** Notions the further statements use *)
(* ===================================================================== *)

(** The six characters the sanitizer rewrites. *)
Definition needs_escape (c : char) : bool :=
  N.eqb c backslash || N.eqb c dquote || N.eqb c squote
  || N.eqb c LF || N.eqb c CR || N.eqb c TAB.

(** What a sanitized body becomes when the content was formatted first:
    a line break is [<br>], any other character its escape. *)
Definition content_char (c : char) : jsstring :=
  if N.eqb c LF then lit "<br>" else escape_char c.


(** A computation that ends, if it ends, by returning. *)
Definition never_throws {S A} (c : Completion S A) : Prop :=
  match c with
  | Thrown _ _ => False
  | _ => True
  end.

(** The shape of the handlers that check the rate first: the check, one
    operation of the manager, the answer made from its result, all in a
    [try] with a [catch]. *)
Definition guarded {W A} (rt : Runtime W) (toolName : jsstring) (op : M W A)
  (k : A -> M (Server W) ToolResponse)
  (h : jsstring -> M (Server W) ToolResponse) : M (Server W) ToolResponse :=
  try_catch
    (bind (checkRateLimit rt toolName) (fun _ => bind (in_world op) k)) h.

(** A computation that ends: it returns or throws. *)
Definition settles {S A} (c : Completion S A) : Prop :=
  match c with
  | Pending => False
  | _ => True
  end.

(** Every window holds a count between 1 and the maximum. *)
Definition rate_ok (m : RateMap) : Prop :=
  forall key l,
    m key = Some l ->
    (1 <= RateWindow.count l <= MAX_REQUESTS_PER_WINDOW)%Z.

(** How many of [n] calls of [checkRateLimit] in a row, for one tool,
    are let through. *)
Fixpoint accepted_calls {W} (rt : Runtime W) (toolName : jsstring) (n : nat)
  (s : Server W) : nat :=
  match n with
  | O => O
  | S n' =>
      match checkRateLimit rt toolName s with
      | Pending => O
      | Thrown _ s' => accepted_calls rt toolName n' s'
      | Returned _ s' => S (accepted_calls rt toolName n' s')
      end
  end.

(** An error response whose text is a rate-limit message or one of the
    fixed texts; a response that is no error passes. *)
Definition error_text_among (fixed : list jsstring) (resp : ToolResponse)
  : bool :=
  negb (isError resp)
  || includes (text resp) (lit "Rate limit")
  || existsb (strict_eq (text resp)) fixed.

(** A runtime whose clock advances by [tick] milliseconds at each
    reading, from 0; every command prints [stdout] and exits with 0. *)
Definition ticking_runtime (tick : Z) (stdout : string) : Runtime nat :=
  {| spawn := fun _ n => (Spawned (exits_with 0 stdout ""), S n);
     randomUUID := fun n => (lit "id" ++ string_of_Z (Z.of_nat n), S n);
     newDate := fun n => ((tick * Z.of_nat n)%Z, S n);
     utf8 := map Byte.to_N |}.

(** A server that has handled nothing yet. *)
Definition fresh_server {W} (w : W) : Server W :=
  {| requestCounts := map_empty; world := w |}.

(* ===================================================================== *)
(** ** Theorems *)
(* ===================================================================== *)

Unset Implicit Arguments.

Lemma replaceAll_flat_map c r s :
  replaceAll c r s = flat_map (fun x => if N.eqb x c then r else [x]) s.
Proof.
  induction s as [|x t IH]; simpl; [reflexivity|].
  rewrite IH. destruct (N.eqb x c); reflexivity.
Qed.

Lemma replaceAll_app c r a b :
  replaceAll c r (a ++ b) = replaceAll c r a ++ replaceAll c r b.
Proof.
  rewrite !replaceAll_flat_map. apply flat_map_app.
Qed.

Lemma apply_steps_app steps a b :
  apply_steps steps (a ++ b) = apply_steps steps a ++ apply_steps steps b.
Proof.
  unfold apply_steps. revert a b.
  induction steps as [|[c r] steps IH]; intros a b; simpl; [reflexivity|].
  rewrite replaceAll_app. apply IH.
Qed.

Ltac by_char c k :=
  destruct (N.eqb_spec c k) as [->|?]; [vm_compute; reflexivity|].

Ltac neq_eqb :=
  repeat match goal with
         | H : ?a <> ?b |- context [N.eqb ?a ?b] =>
             rewrite (proj2 (N.eqb_neq a b) H)
         end.

Lemma replaceAll_other c r (x : char) :
  x <> c -> replaceAll c r [x] = [x].
Proof.
  intros H. simpl. rewrite (proj2 (N.eqb_neq x c) H). reflexivity.
Qed.

(** One character through the six steps in their order. *)
Lemma apply_steps_char (x : char) :
  apply_steps escape_steps [x] = escape_char x.
Proof.
  unfold escape_char.
  by_char x backslash. by_char x dquote. by_char x squote.
  by_char x LF. by_char x CR. by_char x TAB.
  neq_eqb. unfold apply_steps, escape_steps.
  cbn [fold_left fst snd].
  rewrite !replaceAll_other by assumption. reflexivity.
Qed.

(** Although the six replacements run one after the other over the whole
    text, no step rewrites what an earlier step produced for another
    character: the result is the character-wise image. *)
Lemma apply_steps_flat_map (s : jsstring) :
  apply_steps escape_steps s = flat_map escape_char s.
Proof.
  induction s as [|x t IH]; [reflexivity|].
  change (x :: t) with ([x] ++ t).
  rewrite apply_steps_app, apply_steps_char, IH. reflexivity.
Qed.

Lemma sanitize_apply_steps (s : jsstring) :
  sanitizeForAppleScript s = apply_steps escape_steps s.
Proof.
  destruct s as [|c t]; reflexivity.
Qed.

Lemma sanitize_flat_map (s : jsstring) :
  sanitizeForAppleScript s = flat_map escape_char s.
Proof.
  rewrite sanitize_apply_steps. apply apply_steps_flat_map.
Qed.

Lemma sanitize_cons (c : char) (t : jsstring) :
  sanitizeForAppleScript (c :: t) = escape_char c ++ sanitizeForAppleScript t.
Proof. rewrite !sanitize_flat_map. reflexivity. Qed.

(* --------------------------------------------------------------------- *)
(** *** The sanitizer *)
(* --------------------------------------------------------------------- *)

Lemma escape_char_plain (c : char) :
  c <> backslash -> c <> dquote -> c <> squote ->
  c <> LF -> c <> CR -> c <> TAB ->
  escape_char c = [c].
Proof.
  intros. unfold escape_char. neq_eqb. reflexivity.
Qed.

Lemma scan_body_plain (c : char) (t : jsstring) :
  c <> backslash -> c <> dquote ->
  scan_body false (c :: t) = scan_body false t.
Proof.
  intros. simpl. neq_eqb. reflexivity.
Qed.

(** Every character but the single quote leaves the reader of the
    literal where it was: outside an escape, with the literal open. *)
Lemma scan_body_escape_char (c : char) (rest : jsstring) :
  c <> squote ->
  scan_body false (escape_char c ++ rest) = scan_body false rest.
Proof.
  intros Hsq.
  destruct (N.eqb_spec c backslash) as [->|?]; [reflexivity|].
  destruct (N.eqb_spec c dquote) as [->|?]; [reflexivity|].
  destruct (N.eqb_spec c LF) as [->|?]; [reflexivity|].
  destruct (N.eqb_spec c CR) as [->|?]; [reflexivity|].
  destruct (N.eqb_spec c TAB) as [->|?]; [reflexivity|].
  rewrite escape_char_plain by assumption.
  apply scan_body_plain; assumption.
Qed.

(** Without a single quote in the input the sanitized text never closes
    the literal it is put in and never ends in a pending backslash. *)
Lemma sanitize_clean_without_squote (s rest : jsstring) :
  ~ In squote s ->
  scan_body false (sanitizeForAppleScript s ++ rest) = scan_body false rest.
Proof.
  induction s as [|c t IH]; intros Hs; [reflexivity|].
  rewrite sanitize_cons, <- app_assoc.
  rewrite scan_body_escape_char by (intros ->; apply Hs; left; reflexivity).
  apply IH. intros Hin. apply Hs. right. exact Hin.
Qed.

(** C1.  The sanitized text, put between double quotes, is meant to hold no
    unescaped double quote; for the title [it's] it holds two.  The single
    quote becomes quote, double quote, quote, double quote, quote, and the
    first of these double quotes, not preceded by a backslash, closes the
    literal after [it']. *)
Theorem sanitize_single_quote_closes_literal :
  sanitizeForAppleScript (lit "it's")
    = lit "it" ++ [squote; dquote; squote; dquote; squote] ++ lit "s"
  /\ scan_body false (sanitizeForAppleScript (lit "it's"))
    = Closed ([squote; dquote; squote] ++ lit "s").
Proof.
  split; vm_compute; reflexivity.
Qed.

Lemma unescape_plain (c : char) (t : jsstring) :
  c <> backslash -> c <> squote ->
  unescape (c :: t) = c :: unescape t.
Proof.
  intros. cbn [unescape]. neq_eqb. reflexivity.
Qed.

Lemma unescape_escape_char (c : char) (rest : jsstring) :
  unescape (escape_char c ++ rest) = c :: unescape rest.
Proof.
  destruct (N.eqb_spec c backslash) as [->|?]; [reflexivity|].
  destruct (N.eqb_spec c dquote) as [->|?]; [reflexivity|].
  destruct (N.eqb_spec c squote) as [->|?]; [reflexivity|].
  destruct (N.eqb_spec c LF) as [->|?]; [reflexivity|].
  destruct (N.eqb_spec c CR) as [->|?]; [reflexivity|].
  destruct (N.eqb_spec c TAB) as [->|?]; [reflexivity|].
  rewrite escape_char_plain by assumption.
  apply unescape_plain; assumption.
Qed.

Lemma unescape_sanitize (s : jsstring) :
  unescape (sanitizeForAppleScript s) = s.
Proof.
  induction s as [|c t IH]; [reflexivity|].
  rewrite sanitize_cons, unescape_escape_char, IH. reflexivity.
Qed.

Lemma literal_argument_template (body : jsstring) :
  literal_argument (literal_template body) = body.
Proof.
  unfold literal_argument, literal_template. simpl.
  apply removelast_last.
Qed.

(** C2.  Round trip: the sanitized text, embedded in the minimal literal
    template, taken back out as the literal argument and read with the
    escape forms reversed (the five backslash forms and the single-quote
    idiom), is the input, whatever characters the input holds. *)
Theorem sanitize_round_trip (s : jsstring) :
  unescape (literal_argument (literal_template (sanitizeForAppleScript s)))
  = s.
Proof.
  rewrite literal_argument_template. apply unescape_sanitize.
Qed.

Lemma apply_steps_escape_with steps s :
  apply_steps steps s = escape_with steps s.
Proof.
  unfold apply_steps, escape_with. revert s.
  induction steps as [|[c r] steps IH]; intros s; simpl; [reflexivity|].
  rewrite replaceAll_flat_map. apply IH.
Qed.

(** C3.  The sanitizer does the six replacements of the specification in
    its order: backslash to two backslashes, then double quote to
    backslash and quote, then single quote to the five characters of the
    idiom, then newline, carriage return and tab to backslash and [n],
    [r], [t], each step replacing every occurrence in the whole result of
    the step before.  So a backslash is doubled and the backslash written
    for another character is not; the double quotes of the idiom stay
    bare.  With the double-quote step before the backslash step, the
    single-quote step before the double-quote step, or the newline step
    before the backslash step the result would be another.  The empty
    string, the falsy input, gives the empty string. *)
Theorem sanitize_step_order :
  map fst escape_steps = [backslash; dquote; squote; LF; CR; TAB]
  /\ (forall s, sanitizeForAppleScript s = escape_with escape_steps s)
  /\ (forall s, sanitizeForAppleScript s = flat_map escape_char s)
  /\ sanitizeForAppleScript [] = []
  /\ escape_with [(dquote, [backslash; dquote]);
                  (backslash, [backslash; backslash])] [dquote]
     <> sanitizeForAppleScript [dquote]
  /\ escape_with [(squote, squote_idiom); (dquote, [backslash; dquote])]
       [squote]
     <> sanitizeForAppleScript [squote]
  /\ escape_with [(LF, [backslash; 110%N]);
                  (backslash, [backslash; backslash])] [LF]
     <> sanitizeForAppleScript [LF].
Proof.
  split; [reflexivity|]. split; [|split; [|split; [|split; [|split]]]].
  - intros s. rewrite sanitize_apply_steps. apply apply_steps_escape_with.
  - exact sanitize_flat_map.
  - reflexivity.
  - vm_compute. discriminate.
  - vm_compute. discriminate.
  - vm_compute. discriminate.
Qed.

Lemma sanitize_step_order_witness :
  sanitizeForAppleScript
    (lit "a\b" ++ [dquote] ++ lit "c'd" ++ [LF; CR; TAB])
  = lit "a\\b" ++ [backslash; dquote] ++ lit "c'" ++ [dquote] ++ lit "'"
    ++ [dquote] ++ lit "'d\n\r\t".
Proof.
  exact (eq_trans
           (proj1 (proj2 sanitize_step_order)
              (lit "a\b" ++ [dquote] ++ lit "c'd" ++ [LF; CR; TAB]))
           eq_refl).
Defined.

(** The order is observable: with the double-quote step before the
    backslash step the backslash written for a double quote would be
    doubled. *)
Lemma sanitize_order_matters :
  sanitizeForAppleScript [dquote] = [backslash; dquote]
  /\ replaceAll backslash [backslash; backslash]
       (replaceAll dquote [backslash; dquote] [dquote])
     = [backslash; backslash; dquote].
Proof. split; reflexivity. Qed.

(* --------------------------------------------------------------------- *)
(** *** The executor *)
(* --------------------------------------------------------------------- *)

Section ExecutorFacts.

Variable toString_utf8 : Buffer -> jsstring.

Lemma chunks_resolve r st : chunks (resolve r st) = chunks st.
Proof. unfold resolve. destruct (settled st); reflexivity. Qed.

Lemma errorChunks_resolve r st :
  errorChunks (resolve r st) = errorChunks st.
Proof. unfold resolve. destruct (settled st); reflexivity. Qed.

Lemma fold_on_event_chunks events st :
  chunks (fold_left (on_event toString_utf8) events st)
  = chunks st ++ stdout_chunks events.
Proof.
  revert st. induction events as [|ev events IH]; intros st; simpl.
  - symmetry. apply app_nil_r.
  - rewrite IH. destruct ev as [c|c|m|code]; simpl.
    + rewrite <- app_assoc. reflexivity.
    + reflexivity.
    + rewrite chunks_resolve. reflexivity.
    + destruct (code_is_zero code); rewrite chunks_resolve; reflexivity.
Qed.

Lemma fold_on_event_errorChunks events st :
  errorChunks (fold_left (on_event toString_utf8) events st)
  = errorChunks st ++ stderr_chunks events.
Proof.
  revert st. induction events as [|ev events IH]; intros st; simpl.
  - symmetry. apply app_nil_r.
  - rewrite IH. destruct ev as [c|c|m|code]; simpl.
    + reflexivity.
    + rewrite <- app_assoc. reflexivity.
    + rewrite errorChunks_resolve. reflexivity.
    + destruct (code_is_zero code); rewrite errorChunks_resolve; reflexivity.
Qed.

(** A settled promise stays as it is: later events change nothing. *)
Lemma settled_stable events st r :
  settled st = Some r ->
  settled (fold_left (on_event toString_utf8) events st) = Some r.
Proof.
  revert st. induction events as [|ev events IH]; intros st H; simpl.
  - exact H.
  - apply IH. destruct ev as [c|c|m|code]; simpl; try exact H.
    + unfold resolve. rewrite H. exact H.
    + destruct (code_is_zero code); unfold resolve; rewrite H; exact H.
Qed.

Lemma resolve_pending r st :
  settled st = None -> settled (resolve r st) = Some r.
Proof. intros H. unfold resolve. rewrite H. reflexivity. Qed.

(** The promise after a pending prefix and one more event. *)
Lemma promise_of_step pre ev rest r :
  promise_of toString_utf8 pre = None ->
  settled (on_event toString_utf8
             (fold_left (on_event toString_utf8) pre exec_init) ev) = Some r ->
  promise_of toString_utf8 (pre ++ ev :: rest) = Some r.
Proof.
  intros _ H. unfold promise_of. rewrite fold_left_app. simpl.
  apply settled_stable. exact H.
Qed.

Lemma promise_of_exit_zero pre rest :
  promise_of toString_utf8 pre = None ->
  promise_of toString_utf8 (pre ++ ExitEvent (Some 0%Z) :: rest)
  = Some (AppleScriptResult.make true
            (trim (toString_utf8 (List.concat (stdout_chunks pre)))) None).
Proof.
  intros Hp. apply promise_of_step; [exact Hp|]. simpl.
  rewrite resolve_pending by exact Hp.
  rewrite fold_on_event_chunks. reflexivity.
Qed.

Lemma promise_of_exit_nonzero pre code rest :
  promise_of toString_utf8 pre = None ->
  code <> Some 0%Z ->
  promise_of toString_utf8 (pre ++ ExitEvent code :: rest)
  = Some (AppleScriptResult.make false []
            (Some (if truthy
                        (trim (toString_utf8 (List.concat (stderr_chunks pre))))
                   then trim (toString_utf8 (List.concat (stderr_chunks pre)))
                   else lit "AppleScript exited with code "
                        ++ code_text code))).
Proof.
  intros Hp Hc. apply promise_of_step; [exact Hp|]. simpl.
  assert (Hz : code_is_zero code = false).
  { destruct code as [n|]; [|reflexivity]. simpl.
    apply Z.eqb_neq. intros ->. apply Hc. reflexivity. }
  rewrite Hz, resolve_pending by exact Hp.
  rewrite fold_on_event_errorChunks. reflexivity.
Qed.

Lemma promise_of_error pre message rest :
  promise_of toString_utf8 pre = None ->
  promise_of toString_utf8 (pre ++ ErrorEvent message :: rest)
  = Some (AppleScriptResult.make false []
            (Some (lit "Failed to execute AppleScript: " ++ message))).
Proof.
  intros Hp. apply promise_of_step; [exact Hp|]. simpl.
  apply resolve_pending. exact Hp.
Qed.

(** While only data arrives the promise stays pending. *)
Lemma settled_data_pending pre st :
  settled st = None ->
  forallb is_data pre = true ->
  settled (fold_left (on_event toString_utf8) pre st) = None.
Proof.
  revert st. induction pre as [|ev pre IH]; intros st Hs Hd; simpl;
    [exact Hs|].
  simpl in Hd. apply andb_true_iff in Hd. destruct Hd as [Hev Hd].
  apply IH; [|exact Hd].
  destruct ev; simpl; try exact Hs; discriminate Hev.
Qed.

Lemma promise_of_data_pending pre :
  forallb is_data pre = true -> promise_of toString_utf8 pre = None.
Proof. apply settled_data_pending. reflexivity. Qed.

End ExecutorFacts.

(** The outcome of [runAppleScript] is made by the first exit or error
    event, from the chunks that arrived before it: an exit with code 0
    gives success with the trimmed text of those output chunks; any other
    exit, a [null] code included, gives failure with empty output and, as
    error, the trimmed text of those error chunks or, when that is empty,
    the message naming the code; an [error] event gives failure with the
    message of the error.  What the child emits afterwards is not read. *)
Lemma runAppleScript_first_terminal_event
  W (rt : Runtime W) script w pre rest w' :
  forallb is_data pre = true ->
  (spawn rt (osascript_call script) w
     = (Spawned (pre ++ ExitEvent (Some 0%Z) :: rest), w') ->
   runAppleScript rt script w
   = Returned
       (AppleScriptResult.make true
          (trim (utf8 rt (List.concat (stdout_chunks pre)))) None) w')
  /\ (forall code,
        code <> Some 0%Z ->
        spawn rt (osascript_call script) w
          = (Spawned (pre ++ ExitEvent code :: rest), w') ->
        runAppleScript rt script w
        = Returned
            (AppleScriptResult.make false []
               (Some (if truthy
                           (trim (utf8 rt (List.concat (stderr_chunks pre))))
                      then trim (utf8 rt (List.concat (stderr_chunks pre)))
                      else lit "AppleScript exited with code "
                           ++ code_text code))) w')
  /\ (forall message,
        spawn rt (osascript_call script) w
          = (Spawned (pre ++ ErrorEvent message :: rest), w') ->
        runAppleScript rt script w
        = Returned
            (AppleScriptResult.make false []
               (Some (lit "Failed to execute AppleScript: " ++ message))) w').
Proof.
  intros Hd. pose proof (promise_of_data_pending (utf8 rt) pre Hd) as Hp.
  repeat split.
  - intros Hs. unfold runAppleScript. rewrite Hs.
    rewrite promise_of_exit_zero by exact Hp. reflexivity.
  - intros code Hc Hs. unfold runAppleScript. rewrite Hs.
    rewrite promise_of_exit_nonzero by assumption. reflexivity.
  - intros message Hs. unfold runAppleScript. rewrite Hs.
    rewrite promise_of_error by exact Hp. reflexivity.
Qed.

(** C4.  The outcome of an exit with code 0 is meant to carry the whole
    standard output, trimmed.  A child whose output reaches the [data]
    handler after its [exit] event, as happens when the streams are still
    open at exit, has printed [created] and exited with code 0, and the
    outcome is a success with empty output: the promise is resolved in the
    [exit] handler, from the chunks collected until then.  And a child
    that could not be spawned is meant to give a failed outcome: a
    [spawn] that throws leaves no outcome at all, the [await] throws. *)
Theorem runAppleScript_exit_drops_late_output :
  List.concat (stdout_chunks late_output)
    = list_byte_of_string "created"
  /\ runAppleScript (scripted_runtime (fun _ => late_output))
       (lit "return 1") 0
     = Returned (AppleScriptResult.make true [] None) 1
  /\ runAppleScript refusing_runtime (lit "return 1") 0
     = Thrown refusal 1.
Proof.
  split; [reflexivity|]. split; [vm_compute; reflexivity|reflexivity].
Qed.

(* --------------------------------------------------------------------- *)
(** *** Strings: comparison, trimming, splitting *)
(* --------------------------------------------------------------------- *)

Lemma strict_eq_spec (a b : jsstring) : reflect (a = b) (strict_eq a b).
Proof.
  revert b. induction a as [|x a IH]; intros [|y b]; simpl;
    try (constructor; congruence).
  destruct (N.eqb_spec x y) as [->|Hxy]; simpl.
  - destruct (IH b) as [->|Hab]; constructor; congruence.
  - constructor. congruence.
Qed.

Lemma strict_eq_refl (a : jsstring) : strict_eq a a = true.
Proof. destruct (strict_eq_spec a a); congruence. Qed.

Lemma strict_eq_neq (a b : jsstring) : a <> b -> strict_eq a b = false.
Proof. intros H. destruct (strict_eq_spec a b); congruence. Qed.

Lemma trimStart_starts_clean s : starts_clean (trimStart s).
Proof.
  induction s as [|c t IH]; simpl; [exact I|].
  destruct (isWhiteSpace c) eqn:E; [exact IH|exact E].
Qed.

Lemma trimStart_clean s : starts_clean s -> trimStart s = s.
Proof.
  destruct s as [|c t]; simpl; [reflexivity|].
  intros ->. reflexivity.
Qed.

Lemma trimStart_idem s : trimStart (trimStart s) = trimStart s.
Proof. apply trimStart_clean, trimStart_starts_clean. Qed.

Lemma trimEnd_idem s : trimEnd (trimEnd s) = trimEnd s.
Proof.
  unfold trimEnd. rewrite rev_involutive, trimStart_idem. reflexivity.
Qed.

Lemma trimStart_snoc l c :
  isWhiteSpace c = false -> trimStart (l ++ [c]) = trimStart l ++ [c].
Proof.
  intros Hc. induction l as [|x l IH]; simpl.
  - rewrite Hc. reflexivity.
  - destruct (isWhiteSpace x); [exact IH|reflexivity].
Qed.

Lemma trimEnd_starts_clean s : starts_clean s -> starts_clean (trimEnd s).
Proof.
  destruct s as [|c t]; simpl; [intros _; exact I|].
  intros Hc. unfold trimEnd. simpl.
  rewrite trimStart_snoc by exact Hc.
  rewrite rev_app_distr. simpl. exact Hc.
Qed.

(** Trimming a trimmed text changes nothing: a trimmed text has no white
    space at either end. *)
Lemma trim_idem s : trim (trim s) = trim s.
Proof.
  unfold trim.
  rewrite (trimStart_clean (trimEnd (trimStart s))).
  - apply trimEnd_idem.
  - apply trimEnd_starts_clean, trimStart_starts_clean.
Qed.

Lemma trimStart_nil_all s : trimStart s = [] -> forallb isWhiteSpace s = true.
Proof.
  induction s as [|c t IH]; simpl; [reflexivity|].
  destruct (isWhiteSpace c); [exact IH|discriminate].
Qed.

Lemma trimStart_all s :
  forallb isWhiteSpace (trimStart s) = true -> forallb isWhiteSpace s = true.
Proof.
  induction s as [|c t IH]; simpl; [reflexivity|].
  destruct (isWhiteSpace c) eqn:E; [exact IH|].
  simpl. rewrite E. discriminate.
Qed.

Lemma forallb_rev_true {A} (f : A -> bool) l :
  forallb f (rev l) = true -> forallb f l = true.
Proof.
  rewrite !forallb_forall. intros H x Hx. apply H.
  apply in_rev in Hx. exact Hx.
Qed.

(** Only white space trims to the empty string. *)
Lemma trim_nil_all s : trim s = [] -> forallb isWhiteSpace s = true.
Proof.
  unfold trim, trimEnd. intros H.
  apply trimStart_all, forallb_rev_true, trimStart_nil_all.
  apply (f_equal (@rev char)) in H. rewrite rev_involutive in H. exact H.
Qed.

Lemma trim_comma_nonblank s : In comma s -> trim s <> [].
Proof.
  intros Hin H. apply trim_nil_all in H.
  rewrite forallb_forall in H. specialize (H comma Hin). discriminate H.
Qed.

Lemma trimStart_incl s c : In c (trimStart s) -> In c s.
Proof.
  induction s as [|x t IH]; simpl; [tauto|].
  destruct (isWhiteSpace x); simpl; [right; apply IH; assumption|tauto].
Qed.

Lemma trim_incl s c : In c (trim s) -> In c s.
Proof.
  unfold trim, trimEnd. intros H.
  apply trimStart_incl. apply in_rev in H.
  apply trimStart_incl in H. apply in_rev in H. exact H.
Qed.

Lemma split_no_sep sep p : ~ In sep p -> split sep p = [p].
Proof.
  induction p as [|c t IH]; intros H; simpl; [reflexivity|].
  rewrite (proj2 (N.eqb_neq c sep)) by (intros ->; apply H; left; reflexivity).
  rewrite IH by (intros Hin; apply H; right; exact Hin). reflexivity.
Qed.

Lemma split_piece sep p rest :
  ~ In sep p -> split sep (p ++ sep :: rest) = p :: split sep rest.
Proof.
  induction p as [|c t IH]; intros H; simpl.
  - rewrite N.eqb_refl. reflexivity.
  - rewrite (proj2 (N.eqb_neq c sep))
      by (intros ->; apply H; left; reflexivity).
    rewrite IH by (intros Hin; apply H; right; exact Hin). reflexivity.
Qed.

(** Splitting undoes joining when no piece holds the separator. *)
Lemma split_join sep pieces :
  pieces <> [] ->
  Forall (fun p => ~ In sep p) pieces ->
  split sep (join sep pieces) = pieces.
Proof.
  induction pieces as [|p ps IH]; intros Hne HF; [congruence|].
  inversion HF as [|? ? Hp Hps]; subst.
  destruct ps as [|q ps'].
  - simpl. apply split_no_sep. exact Hp.
  - change (join sep (p :: q :: ps')) with (p ++ sep :: join sep (q :: ps')).
    rewrite split_piece by exact Hp.
    rewrite IH by (congruence || exact Hps). reflexivity.
Qed.

Lemma join_has_sep sep pieces :
  2 <= List.length pieces -> In sep (join sep pieces).
Proof.
  destruct pieces as [|p [|q ps]]; simpl; try lia.
  intros _. apply in_or_app. right. left. reflexivity.
Qed.

(* --------------------------------------------------------------------- *)
(** *** The operations on one outcome *)
(* --------------------------------------------------------------------- *)

Section ManagerFacts.

Variable W : Type.
Variable rt : Runtime W.
Variable exec : jsstring -> M W AppleScriptResult.t.
Variable accountName : jsstring.

(** Runs an operation up to the outcome [H] gives for its command. *)
Ltac run_with H := unfold bind; cbv zeta; rewrite H.

Lemma getAccounts_failed w r w' :
  exec getAccounts_script w = Returned r w' ->
  AppleScriptResult.success r = false ->
  getAccounts exec w = Thrown (lit "Failed to get accounts") w'.
Proof.
  intros H Hs. unfold getAccounts. run_with H. rewrite Hs. reflexivity.
Qed.

Lemma searchNotes_failed query w r w' :
  exec (searchNotes_script (sanitizeForAppleScript accountName)
          (sanitizeForAppleScript query)) w = Returned r w' ->
  AppleScriptResult.success r = false ->
  searchNotes rt exec accountName query w
  = Thrown (lit "Failed to search notes") w'.
Proof.
  intros H Hs. unfold searchNotes. run_with H. rewrite Hs. reflexivity.
Qed.

Lemma getNoteContent_failed title w r w' :
  exec (getNoteContent_script (sanitizeForAppleScript accountName)
          (sanitizeForAppleScript title)) w = Returned r w' ->
  AppleScriptResult.success r = false ->
  getNoteContent exec accountName title w
  = Thrown (lit "Failed to get note content") w'.
Proof.
  intros H Hs. unfold getNoteContent. run_with H. rewrite Hs. reflexivity.
Qed.

Lemma editNote_failed title newContent w r w' :
  exec (editNote_script (sanitizeForAppleScript accountName)
          (sanitizeForAppleScript title)
          (sanitizeForAppleScript (formatContent newContent))) w
  = Returned r w' ->
  AppleScriptResult.success r = false ->
  editNote rt exec accountName title newContent w
  = Returned (OpResult.make false None (Some (lit "Failed to update note")))
      w'.
Proof.
  intros H Hs. unfold editNote. run_with H. rewrite Hs. reflexivity.
Qed.

Lemma deleteNote_failed title w r w' :
  exec (deleteNote_script (sanitizeForAppleScript accountName)
          (sanitizeForAppleScript title)) w = Returned r w' ->
  AppleScriptResult.success r = false ->
  deleteNote exec accountName title w
  = Returned (OpResult.make false None (Some (lit "Failed to delete note")))
      w'.
Proof.
  intros H Hs. unfold deleteNote. run_with H. rewrite Hs. reflexivity.
Qed.

Lemma getFolders_failed w r w' :
  exec (getFolders_script (sanitizeForAppleScript accountName)) w
  = Returned r w' ->
  AppleScriptResult.success r = false ->
  getFolders rt exec accountName w = Thrown (lit "Failed to get folders") w'.
Proof.
  intros H Hs. unfold getFolders. run_with H. rewrite Hs. reflexivity.
Qed.

Lemma moveNote_decoded noteTitle targetFolderName w r w' :
  exec (moveNote_script (sanitizeForAppleScript accountName)
          (sanitizeForAppleScript targetFolderName)
          (sanitizeForAppleScript noteTitle)) w = Returned r w' ->
  moveNote exec accountName noteTitle targetFolderName w
  = Returned (moveNote_decode_with strict_eq r) w'.
Proof.
  intros H. unfold moveNote, moveNote_decode_with. run_with H.
  destruct (AppleScriptResult.success r); simpl; [|reflexivity].
  destruct (strict_eq (AppleScriptResult.output r) (lit "folder not found"));
    [reflexivity|].
  destruct (strict_eq (AppleScriptResult.output r) (lit "note not found"));
    reflexivity.
Qed.

Lemma moveNote_failed noteTitle targetFolderName w r w' :
  exec (moveNote_script (sanitizeForAppleScript accountName)
          (sanitizeForAppleScript targetFolderName)
          (sanitizeForAppleScript noteTitle)) w = Returned r w' ->
  AppleScriptResult.success r = false ->
  moveNote exec accountName noteTitle targetFolderName w
  = Returned (OpResult.make false None (Some (lit "Failed to move note"))) w'.
Proof.
  intros H Hs. rewrite (moveNote_decoded _ _ _ _ _ H).
  unfold moveNote_decode_with. rewrite Hs. reflexivity.
Qed.

(** The command [createNote] runs first is [createNote_script]. *)
Lemma createNote_unfold title content tags folder :
  createNote rt exec accountName title content tags folder
  = bind (exec (createNote_script accountName title content folder))
      (fun result =>
         if strict_eq (AppleScriptResult.output result)
              (lit "folder not found")
         then throw (lit "Specified folder not found")
         else if negb (AppleScriptResult.success result)
                 && negb (given folder)
         then bind (exec (createNote_retry_script accountName title content))
                (fun accountResult =>
                   if negb (AppleScriptResult.success accountResult)
                   then throw (lit "Failed to create note")
                   else new_note rt title content tags)
         else if negb (AppleScriptResult.success result)
         then throw (lit "Failed to create note")
         else new_note rt title content tags).
Proof.
  unfold createNote, createNote_script, createNote_retry_script.
  destruct folder as [[|c f]|]; reflexivity.
Qed.

Lemma createNote_failed_in_folder title content tags folder w r w' :
  given folder = true ->
  exec (createNote_script accountName title content folder) w
  = Returned r w' ->
  AppleScriptResult.success r = false ->
  AppleScriptResult.output r <> lit "folder not found" ->
  createNote rt exec accountName title content tags folder w
  = Thrown (lit "Failed to create note") w'.
Proof.
  intros Hg H Hs Ho. rewrite createNote_unfold. run_with H.
  rewrite (strict_eq_neq _ _ Ho), Hs, Hg. reflexivity.
Qed.

Lemma createNote_failed_no_folder title content tags folder w r w' :
  given folder = false ->
  exec (createNote_script accountName title content folder) w
  = Returned r w' ->
  AppleScriptResult.success r = false ->
  AppleScriptResult.output r <> lit "folder not found" ->
  createNote rt exec accountName title content tags folder w
  = bind (exec (createNote_retry_script accountName title content))
      (fun accountResult =>
         if negb (AppleScriptResult.success accountResult)
         then throw (lit "Failed to create note")
         else new_note rt title content tags) w'.
Proof.
  intros Hg H Hs Ho. rewrite createNote_unfold.
  unfold bind at 1. rewrite H.
  rewrite (strict_eq_neq _ _ Ho), Hs, Hg. reflexivity.
Qed.

End ManagerFacts.

(* --------------------------------------------------------------------- *)
(** *** Failed outcomes *)
(* --------------------------------------------------------------------- *)

(** C6, as amended.  [searchNotes], [getNoteContent], [editNote],
    [deleteNote], [moveNote], [getFolders] and [getAccounts] look at
    [success] first: on a failed outcome, whatever its output, the result
    is the hard failure of the operation.  [createNote] called with a
    folder throws its hard failure on a failed outcome whose output is not
    the folder sentinel; called without a folder it answers a failed
    outcome by running the account-scoped command, and the outcome of that
    second command decides between the hard failure and the new note. *)
Theorem failed_outcome_is_hard_failure
  (W : Type) (rt : Runtime W) (exec : jsstring -> M W AppleScriptResult.t)
  (accountName : jsstring) (w : W) (r : AppleScriptResult.t) (w' : W) :
  AppleScriptResult.success r = false ->
  (forall query,
      exec (searchNotes_script (sanitizeForAppleScript accountName)
              (sanitizeForAppleScript query)) w = Returned r w' ->
      searchNotes rt exec accountName query w
      = Thrown (lit "Failed to search notes") w')
  /\ (forall title,
        exec (getNoteContent_script (sanitizeForAppleScript accountName)
                (sanitizeForAppleScript title)) w = Returned r w' ->
        getNoteContent exec accountName title w
        = Thrown (lit "Failed to get note content") w')
  /\ (forall title newContent,
        exec (editNote_script (sanitizeForAppleScript accountName)
                (sanitizeForAppleScript title)
                (sanitizeForAppleScript (formatContent newContent))) w
        = Returned r w' ->
        editNote rt exec accountName title newContent w
        = Returned
            (OpResult.make false None (Some (lit "Failed to update note"))) w')
  /\ (forall title,
        exec (deleteNote_script (sanitizeForAppleScript accountName)
                (sanitizeForAppleScript title)) w = Returned r w' ->
        deleteNote exec accountName title w
        = Returned
            (OpResult.make false None (Some (lit "Failed to delete note"))) w')
  /\ (forall noteTitle targetFolderName,
        exec (moveNote_script (sanitizeForAppleScript accountName)
                (sanitizeForAppleScript targetFolderName)
                (sanitizeForAppleScript noteTitle)) w = Returned r w' ->
        moveNote exec accountName noteTitle targetFolderName w
        = Returned
            (OpResult.make false None (Some (lit "Failed to move note"))) w')
  /\ (exec (getFolders_script (sanitizeForAppleScript accountName)) w
        = Returned r w' ->
      getFolders rt exec accountName w
      = Thrown (lit "Failed to get folders") w')
  /\ (exec getAccounts_script w = Returned r w' ->
      getAccounts exec w = Thrown (lit "Failed to get accounts") w')
  /\ (forall title content tags folder,
        given folder = true ->
        AppleScriptResult.output r <> lit "folder not found" ->
        exec (createNote_script accountName title content folder) w
        = Returned r w' ->
        createNote rt exec accountName title content tags folder w
        = Thrown (lit "Failed to create note") w')
  /\ (forall title content tags folder,
        given folder = false ->
        AppleScriptResult.output r <> lit "folder not found" ->
        exec (createNote_script accountName title content folder) w
        = Returned r w' ->
        createNote rt exec accountName title content tags folder w
        = bind (exec (createNote_retry_script accountName title content))
            (fun accountResult =>
               if negb (AppleScriptResult.success accountResult)
               then throw (lit "Failed to create note")
               else new_note rt title content tags) w').
Proof.
  intros Hs. repeat split.
  - intros query H. exact (searchNotes_failed W rt exec _ _ _ _ _ H Hs).
  - intros title H. exact (getNoteContent_failed W exec _ _ _ _ _ H Hs).
  - intros title c H. exact (editNote_failed W rt exec _ _ _ _ _ _ H Hs).
  - intros title H. exact (deleteNote_failed W exec _ _ _ _ _ H Hs).
  - intros t f H. exact (moveNote_failed W exec _ _ _ _ _ _ H Hs).
  - intros H. exact (getFolders_failed W rt exec _ _ _ _ H Hs).
  - intros H. exact (getAccounts_failed W exec _ _ _ H Hs).
  - intros title content tags folder Hg Ho H.
    exact (createNote_failed_in_folder W rt exec _ _ _ _ _ _ _ _ Hg H Hs Ho).
  - intros title content tags folder Hg Ho H.
    exact (createNote_failed_no_folder W rt exec _ _ _ _ _ _ _ _ Hg H Hs Ho).
Qed.

Lemma failed_outcome_is_hard_failure_witness :
  searchNotes failing_runtime (runAppleScript failing_runtime)
    (lit "iCloud") (lit "milk") 0
  = Thrown (lit "Failed to search notes") 1
  /\ getNoteContent (runAppleScript failing_runtime)
       (lit "iCloud") (lit "List") 0
     = Thrown (lit "Failed to get note content") 1
  /\ editNote failing_runtime (runAppleScript failing_runtime)
       (lit "iCloud") (lit "List") (lit "eggs") 0
     = Returned
         (OpResult.make false None (Some (lit "Failed to update note"))) 1
  /\ deleteNote (runAppleScript failing_runtime)
       (lit "iCloud") (lit "List") 0
     = Returned
         (OpResult.make false None (Some (lit "Failed to delete note"))) 1
  /\ moveNote (runAppleScript failing_runtime)
       (lit "iCloud") (lit "List") (lit "Home") 0
     = Returned
         (OpResult.make false None (Some (lit "Failed to move note"))) 1
  /\ getFolders failing_runtime (runAppleScript failing_runtime)
       (lit "iCloud") 0
     = Thrown (lit "Failed to get folders") 1
  /\ getAccounts (runAppleScript failing_runtime) 0
     = Thrown (lit "Failed to get accounts") 1
  /\ createNote failing_runtime (runAppleScript failing_runtime)
       (lit "iCloud") (lit "List") (lit "eggs") [] (Some (lit "Home")) 0
     = Thrown (lit "Failed to create note") 1
  /\ createNote failing_runtime (runAppleScript failing_runtime)
       (lit "iCloud") (lit "List") (lit "eggs") [] None 0
     = Thrown (lit "Failed to create note") 2.
Proof.
  destruct (failed_outcome_is_hard_failure nat failing_runtime
              (runAppleScript failing_runtime) (lit "iCloud") 0
              (AppleScriptResult.make false []
                 (Some (lit "execution error (-1728)")))
              1 eq_refl)
    as (H1 & H2 & H3 & H4 & H5 & H6 & H7 & H8 & H9).
  refine (conj (H1 (lit "milk") eq_refl)
         (conj (H2 (lit "List") eq_refl)
         (conj (H3 (lit "List") (lit "eggs") eq_refl)
         (conj (H4 (lit "List") eq_refl)
         (conj (H5 (lit "List") (lit "Home") eq_refl)
         (conj (H6 eq_refl)
         (conj (H7 eq_refl)
         (conj (H8 (lit "List") (lit "eggs") [] (Some (lit "Home")) eq_refl _
                  eq_refl)
               (eq_trans
                  (H9 (lit "List") (lit "eggs") [] None eq_refl _ eq_refl)
                  eq_refl))))))))); discriminate.
Defined.

(** C6, as stated, fails for [createNote]: called without a folder, with
    a first command that exits with code 1 and a second one that prints
    [created], it returns the new note although the outcome of the command
    it ran first was a failure. *)
Lemma createNote_retry_recovers : ~ createNote_failed_outcome_throws.
Proof.
  intros H.
  destruct (H (scripted_runtime fails_once)
              (runAppleScript (scripted_runtime fails_once))
              (lit "iCloud") (lit "List") (lit "eggs") [] None 0
              (AppleScriptResult.make false []
                 (Some (lit "execution error: Notes got an error (-1728)")))
              1 eq_refl eq_refl)
    as (message & w'' & Hthrown).
  vm_compute in Hthrown. discriminate Hthrown.
Qed.

(** [createNote] compares the output with the folder sentinel before it
    looks at [success]: an outcome with that output, failed or not, gives
    the folder answer.  The executor of this program never reports a
    failure with a non-empty output. *)
Lemma createNote_sentinel_before_success
  (W : Type) (rt : Runtime W) (exec : jsstring -> M W AppleScriptResult.t)
  accountName title content tags folder w r w' :
  exec (createNote_script accountName title content folder) w
  = Returned r w' ->
  AppleScriptResult.output r = lit "folder not found" ->
  createNote rt exec accountName title content tags folder w
  = Thrown (lit "Specified folder not found") w'.
Proof.
  intros H Ho. rewrite createNote_unfold. unfold bind. rewrite H, Ho.
  reflexivity.
Qed.

(** The run behind it. *)
Lemma createNote_retry_run :
  createNote (scripted_runtime fails_once)
    (runAppleScript (scripted_runtime fails_once))
    (lit "iCloud") (lit "List") (lit "eggs") [] None 0
  = Returned (Note.make (lit "id2") (lit "List") (lit "eggs") [] 3%Z 4%Z) 5.
Proof. vm_compute. reflexivity. Qed.

(* --------------------------------------------------------------------- *)
(** *** Sentinel priority *)
(* --------------------------------------------------------------------- *)

(** What [moveNote] answers on a successful outcome: the folder answer
    for the folder sentinel, the note answer for the note sentinel. *)
Lemma moveNote_sentinel_answers
  (W : Type) (exec : jsstring -> M W AppleScriptResult.t)
  (accountName noteTitle targetFolderName : jsstring)
  (w : W) (r : AppleScriptResult.t) (w' : W) :
  exec (moveNote_script (sanitizeForAppleScript accountName)
          (sanitizeForAppleScript targetFolderName)
          (sanitizeForAppleScript noteTitle)) w = Returned r w' ->
  AppleScriptResult.success r = true ->
  (AppleScriptResult.output r = lit "folder not found" ->
   moveNote exec accountName noteTitle targetFolderName w
   = Returned
       (OpResult.make false None (Some (lit "Target folder not found")))
       w')
  /\ (AppleScriptResult.output r = lit "note not found" ->
      moveNote exec accountName noteTitle targetFolderName w
      = Returned (OpResult.make false None (Some (lit "Note not found"))) w').
Proof.
  intros H Hs.
  pose proof (moveNote_decoded W exec _ _ _ _ _ _ H) as Hd.
  split; intros Ho; rewrite Hd; unfold moveNote_decode_with;
    rewrite Hs, Ho; reflexivity.
Qed.

(** The order of the two sentinel tests of [moveNote] cannot be seen in
    its results: no output is both sentinels under [===], and the
    decoding with the note test first is the same function. *)
Lemma moveNote_sentinel_order_unobservable
  (W : Type) (exec : jsstring -> M W AppleScriptResult.t)
  (accountName noteTitle targetFolderName : jsstring)
  (w : W) (r : AppleScriptResult.t) (w' : W) :
  exec (moveNote_script (sanitizeForAppleScript accountName)
          (sanitizeForAppleScript targetFolderName)
          (sanitizeForAppleScript noteTitle)) w = Returned r w' ->
  moveNote exec accountName noteTitle targetFolderName w
  = Returned (moveNote_decode_note_first r) w'.
Proof.
  intros H. rewrite (moveNote_decoded W exec _ _ _ _ _ _ H). f_equal.
  unfold moveNote_decode_with, moveNote_decode_note_first.
  destruct (AppleScriptResult.success r); [|reflexivity]. cbn [negb].
  destruct (strict_eq_spec (AppleScriptResult.output r)
              (lit "folder not found")) as [->|_]; reflexivity.
Qed.

(* --------------------------------------------------------------------- *)
(** *** Decoding of lists *)
(* --------------------------------------------------------------------- *)

Section ListDecoding.

Variable W : Type.
Variable rt : Runtime W.
Variable exec : jsstring -> M W AppleScriptResult.t.
Variable accountName : jsstring.

(** A [map] whose callback always returns, returns: element for element. *)
Lemma mapM_returns {A B} (f : A -> M W B) (g : A -> B -> Prop) :
  (forall x w, exists y w', f x w = Returned y w' /\ g x y) ->
  forall xs w, exists ys w', mapM f xs w = Returned ys w' /\ Forall2 g xs ys.
Proof.
  intros Hf. induction xs as [|x xs IH]; intros w; simpl.
  - exists [], w. split; [reflexivity|constructor].
  - destruct (Hf x w) as (y & w1 & Hy & Hg).
    destruct (IH w1) as (ys & w2 & Hys & HF).
    exists (y :: ys), w2. unfold bind. rewrite Hy, Hys.
    split; [reflexivity|constructor; assumption].
Qed.

Lemma Forall2_map_eq {A B C} (f : A -> C) (h : B -> C) xs ys :
  Forall2 (fun x y => h y = f x) xs ys -> map h ys = map f xs.
Proof.
  induction 1 as [|x y xs ys Hxy _ IH]; simpl; [reflexivity|].
  rewrite Hxy, IH. reflexivity.
Qed.

Lemma map_filter_swap {A B} (f : A -> B) (p : B -> bool) l :
  map f (filter (fun x => p (f x)) l) = filter p (map f l).
Proof.
  induction l as [|x l IH]; simpl; [reflexivity|].
  destruct (p (f x)); simpl; rewrite IH; reflexivity.
Qed.

Lemma nonblank_guard out :
  trim out <> [] -> negb (truthy out) || strict_eq (trim out) [] = false.
Proof.
  intros H. rewrite (strict_eq_neq _ _ H), orb_false_r.
  destruct out as [|c t]; [|reflexivity].
  exfalso. apply H. reflexivity.
Qed.

Lemma blank_guard out :
  trim out = [] -> negb (truthy out) || strict_eq (trim out) [] = true.
Proof. intros ->. apply orb_true_r. Qed.

Lemma searchNotes_blank query w r w' :
  exec (searchNotes_script (sanitizeForAppleScript accountName)
          (sanitizeForAppleScript query)) w = Returned r w' ->
  AppleScriptResult.success r = true ->
  trim (AppleScriptResult.output r) = [] ->
  searchNotes rt exec accountName query w = Returned [] w'.
Proof.
  intros H Hs Hb. unfold searchNotes, bind. cbv zeta. rewrite H, Hs.
  cbn [negb]. rewrite (blank_guard _ Hb). reflexivity.
Qed.

Lemma getFolders_blank w r w' :
  exec (getFolders_script (sanitizeForAppleScript accountName)) w
  = Returned r w' ->
  AppleScriptResult.success r = true ->
  trim (AppleScriptResult.output r) = [] ->
  getFolders rt exec accountName w = Returned [] w'.
Proof.
  intros H Hs Hb. unfold getFolders, bind. cbv zeta. rewrite H, Hs.
  cbn [negb]. rewrite (blank_guard _ Hb). reflexivity.
Qed.

(** On an output that is not blank [searchNotes] returns, and the titles
    are the non-empty pieces between the commas, each one trimmed. *)
Lemma searchNotes_decoded query w r w' :
  exec (searchNotes_script (sanitizeForAppleScript accountName)
          (sanitizeForAppleScript query)) w = Returned r w' ->
  AppleScriptResult.success r = true ->
  trim (AppleScriptResult.output r) <> [] ->
  exists notes w'',
    searchNotes rt exec accountName query w = Returned notes w''
    /\ map Note.title notes
       = map trim (filter truthy (split comma (AppleScriptResult.output r))).
Proof.
  intros H Hs Hb. unfold searchNotes. unfold bind at 1. cbv zeta.
  rewrite H, Hs. cbn [negb]. rewrite (nonblank_guard _ Hb).
  match goal with
  | |- context [mapM ?f ?l w'] =>
      assert (Hf : forall x w0, exists y w1,
                 f x w0 = Returned y w1 /\ Note.title y = trim x);
      [|destruct (mapM_returns f (fun x y => Note.title y = trim x) Hf l w')
          as (notes & w'' & Hm & HF)]
  end.
  - intros x w0. unfold bind, lift, ret.
    destruct (randomUUID rt w0) as [id w1].
    destruct (newDate rt w1) as [created w2].
    destruct (newDate rt w2) as [modified w3].
    eexists _, _. split; reflexivity.
  - exists notes, w''. split; [exact Hm|].
    apply Forall2_map_eq. exact HF.
Qed.

(** On an output that is not blank [getFolders] returns, and the names
    are the pieces between the commas, each one trimmed, without those
    that are empty once trimmed. *)
Lemma getFolders_decoded w r w' :
  exec (getFolders_script (sanitizeForAppleScript accountName)) w
  = Returned r w' ->
  AppleScriptResult.success r = true ->
  trim (AppleScriptResult.output r) <> [] ->
  exists folders w'',
    getFolders rt exec accountName w = Returned folders w''
    /\ map Folder.name folders
       = filter truthy (map trim (split comma (AppleScriptResult.output r))).
Proof.
  intros H Hs Hb. unfold getFolders. unfold bind at 1. cbv zeta.
  rewrite H, Hs. cbn [negb]. rewrite (nonblank_guard _ Hb).
  match goal with
  | |- context [mapM ?f ?l] =>
      assert (Hf : forall x w0, exists y w1,
                 f x w0 = Returned y w1 /\ Folder.name y = trim x);
      [|destruct (mapM_returns f (fun x y => Folder.name y = trim x) Hf l w')
          as (folders & w'' & Hm & HF)]
  end.
  - intros x w0. unfold bind, lift, ret.
    destruct (randomUUID rt w0) as [id w1].
    eexists _, _. split; reflexivity.
  - eexists _, w''. unfold bind at 1. rewrite Hm. split; [reflexivity|].
    rewrite (map_filter_swap Folder.name truthy).
    f_equal. apply Forall2_map_eq. exact HF.
Qed.

Lemma getAccounts_decoded w r w' :
  exec getAccounts_script w = Returned r w' ->
  AppleScriptResult.success r = true ->
  getAccounts exec w
  = Returned
      (filter truthy (map trim (split comma (AppleScriptResult.output r)))) w'.
Proof.
  intros H Hs. unfold getAccounts, bind. cbv zeta. rewrite H, Hs.
  reflexivity.
Qed.

Lemma Forall_trimmed_map_trim (l : list jsstring) :
  Forall (fun t => trim t = t) (map trim l).
Proof.
  induction l as [|x l IH]; simpl; constructor; [apply trim_idem|exact IH].
Qed.

Lemma Forall_filter {A} (P : A -> Prop) (p : A -> bool) l :
  Forall P l -> Forall P (filter p l).
Proof.
  induction 1 as [|x l Hx _ IH]; simpl; [constructor|].
  destruct (p x); [constructor; assumption|exact IH].
Qed.

End ListDecoding.

(** C8.  On a successful outcome whose output is empty or only white
    space, [searchNotes] and [getFolders] return the empty array; on any
    other successful outcome they return, and every title or name they
    return is a piece between two commas with the white space at its ends
    removed. *)
Theorem list_decoding_empty_and_trimmed
  (W : Type) (rt : Runtime W) (exec : jsstring -> M W AppleScriptResult.t)
  (accountName : jsstring) (w : W) (r : AppleScriptResult.t) (w' : W) :
  AppleScriptResult.success r = true ->
  (trim (AppleScriptResult.output r) = [] ->
   (forall query,
       exec (searchNotes_script (sanitizeForAppleScript accountName)
               (sanitizeForAppleScript query)) w = Returned r w' ->
       searchNotes rt exec accountName query w = Returned [] w')
   /\ (exec (getFolders_script (sanitizeForAppleScript accountName)) w
         = Returned r w' ->
       getFolders rt exec accountName w = Returned [] w'))
  /\ (trim (AppleScriptResult.output r) <> [] ->
      (forall query,
          exec (searchNotes_script (sanitizeForAppleScript accountName)
                  (sanitizeForAppleScript query)) w = Returned r w' ->
          exists notes w'',
            searchNotes rt exec accountName query w = Returned notes w''
            /\ map Note.title notes
               = map trim
                   (filter truthy
                      (split comma (AppleScriptResult.output r)))
            /\ Forall (fun t => trim t = t) (map Note.title notes))
      /\ (exec (getFolders_script (sanitizeForAppleScript accountName)) w
            = Returned r w' ->
          exists folders w'',
            getFolders rt exec accountName w = Returned folders w''
            /\ map Folder.name folders
               = filter truthy
                   (map trim (split comma (AppleScriptResult.output r)))
            /\ Forall (fun t => trim t = t) (map Folder.name folders))).
Proof.
  intros Hs. split.
  - intros Hb. split.
    + intros query H. exact (searchNotes_blank W rt exec _ _ _ _ _ H Hs Hb).
    + intros H. exact (getFolders_blank W rt exec _ _ _ _ H Hs Hb).
  - intros Hb. split.
    + intros query H.
      destruct (searchNotes_decoded W rt exec _ _ _ _ _ H Hs Hb)
        as (notes & w'' & Hrun & Ht).
      exists notes, w''. split; [exact Hrun|]. split; [exact Ht|].
      rewrite Ht. apply Forall_trimmed_map_trim.
    + intros H.
      destruct (getFolders_decoded W rt exec _ _ _ _ H Hs Hb)
        as (folders & w'' & Hrun & Hn).
      exists folders, w''. split; [exact Hrun|]. split; [exact Hn|].
      rewrite Hn. apply Forall_filter, Forall_trimmed_map_trim.
Qed.

Lemma list_decoding_empty_and_trimmed_witness :
  searchNotes failing_runtime blank_executor (lit "iCloud") (lit "milk") 0
  = Returned [] 1
  /\ getFolders failing_runtime blank_executor (lit "iCloud") 0
     = Returned [] 1
  /\ (exists folders w'',
         getFolders (always_exits 0 "Home , Work" "")
           (runAppleScript (always_exits 0 "Home , Work" "")) (lit "iCloud") 0
         = Returned folders w''
         /\ map Folder.name folders = [lit "Home"; lit "Work"]
         /\ Forall (fun t => trim t = t) (map Folder.name folders)).
Proof.
  destruct (list_decoding_empty_and_trimmed nat failing_runtime
              blank_executor (lit "iCloud") 0
              (AppleScriptResult.make true (lit "  ") None) 1 eq_refl)
    as (Hblank & _).
  destruct (Hblank eq_refl) as (Hsearch & Hfolders).
  destruct (list_decoding_empty_and_trimmed nat
              (always_exits 0 "Home , Work" "")
              (runAppleScript (always_exits 0 "Home , Work" ""))
              (lit "iCloud") 0
              (AppleScriptResult.make true (lit "Home , Work") None) 1
              eq_refl)
    as (_ & Hfull).
  assert (Hnb : trim (lit "Home , Work") <> []) by discriminate.
  destruct (Hfull Hnb) as (_ & Hdecoded).
  exact (conj (Hsearch (lit "milk") eq_refl)
           (conj (Hfolders eq_refl) (Hdecoded eq_refl))).
Defined.

(* --------------------------------------------------------------------- *)
(** *** Commas inside names *)
(* --------------------------------------------------------------------- *)

Lemma nonblank_pieces_kept (pieces : list jsstring) :
  Forall (fun p => trim p <> []) pieces ->
  filter truthy pieces = pieces
  /\ filter truthy (map trim pieces) = map trim pieces.
Proof.
  induction 1 as [|p ps Hp _ [IH1 IH2]]; simpl; [split; reflexivity|].
  destruct (trim p) as [|c t] eqn:Et; [congruence|].
  destruct p as [|c' p']; [discriminate Et|]. simpl.
  rewrite IH1, IH2. split; reflexivity.
Qed.

Lemma trimmed_pieces_no_comma (pieces : list jsstring) :
  Forall (fun p => ~ In comma p) pieces ->
  Forall (fun t => ~ In comma t) (map trim pieces).
Proof.
  induction 1 as [|p ps Hp _ IH]; simpl; constructor; [|exact IH].
  intros Hin. apply Hp. apply trim_incl. exact Hin.
Qed.

(** C10, as amended.  The list decoders split at every comma: when the
    output is pieces joined by commas, two or more, [searchNotes] returns
    the non-empty pieces, trimmed, and [getFolders] and [getAccounts] the
    trimmed pieces that are not empty; no returned name holds a comma, and
    when no piece is blank there are as many names as pieces, so at least
    two. *)
Theorem comma_splits_names
  (W : Type) (rt : Runtime W) (exec : jsstring -> M W AppleScriptResult.t)
  (accountName : jsstring) (w : W) (r : AppleScriptResult.t) (w' : W)
  (pieces : list jsstring) :
  AppleScriptResult.success r = true ->
  AppleScriptResult.output r = join comma pieces ->
  2 <= List.length pieces ->
  Forall (fun p => ~ In comma p) pieces ->
  (forall query,
      exec (searchNotes_script (sanitizeForAppleScript accountName)
              (sanitizeForAppleScript query)) w = Returned r w' ->
      exists notes w'',
        searchNotes rt exec accountName query w = Returned notes w''
        /\ map Note.title notes = map trim (filter truthy pieces)
        /\ Forall (fun t => ~ In comma t) (map Note.title notes)
        /\ (Forall (fun p => trim p <> []) pieces ->
            List.length notes = List.length pieces))
  /\ (exec (getFolders_script (sanitizeForAppleScript accountName)) w
        = Returned r w' ->
      exists folders w'',
        getFolders rt exec accountName w = Returned folders w''
        /\ map Folder.name folders = filter truthy (map trim pieces)
        /\ Forall (fun t => ~ In comma t) (map Folder.name folders)
        /\ (Forall (fun p => trim p <> []) pieces ->
            List.length folders = List.length pieces))
  /\ (exec getAccounts_script w = Returned r w' ->
      exists accounts,
        getAccounts exec w = Returned accounts w'
        /\ accounts = filter truthy (map trim pieces)
        /\ Forall (fun t => ~ In comma t) accounts
        /\ (Forall (fun p => trim p <> []) pieces ->
            List.length accounts = List.length pieces)).
Proof.
  intros Hs Ho Hlen Hfree.
  assert (Hne : pieces <> []) by (intros ->; simpl in Hlen; lia).
  assert (Hsplit : split comma (AppleScriptResult.output r) = pieces)
    by (rewrite Ho; apply split_join; assumption).
  assert (Hb : trim (AppleScriptResult.output r) <> [])
    by (rewrite Ho; apply trim_comma_nonblank, join_has_sep; exact Hlen).
  split; [|split].
  - intros query H.
    destruct (searchNotes_decoded W rt exec _ _ _ _ _ H Hs Hb)
      as (notes & w'' & Hrun & Ht).
    rewrite Hsplit in Ht.
    exists notes, w''. split; [exact Hrun|]. split; [exact Ht|]. split.
    + rewrite Ht. apply trimmed_pieces_no_comma, Forall_filter. exact Hfree.
    + intros Hnb. rewrite <- (length_map Note.title notes), Ht.
      rewrite (proj1 (nonblank_pieces_kept pieces Hnb)). apply length_map.
  - intros H.
    destruct (getFolders_decoded W rt exec _ _ _ _ H Hs Hb)
      as (folders & w'' & Hrun & Hn).
    rewrite Hsplit in Hn.
    exists folders, w''. split; [exact Hrun|]. split; [exact Hn|]. split.
    + rewrite Hn. apply Forall_filter, trimmed_pieces_no_comma. exact Hfree.
    + intros Hnb. rewrite <- (length_map Folder.name folders), Hn.
      rewrite (proj2 (nonblank_pieces_kept pieces Hnb)). apply length_map.
  - intros H. eexists. split; [|split; [|split]].
    + rewrite (getAccounts_decoded W exec _ _ _ H Hs), Hsplit. reflexivity.
    + reflexivity.
    + apply Forall_filter, trimmed_pieces_no_comma. exact Hfree.
    + intros Hnb. rewrite (proj2 (nonblank_pieces_kept pieces Hnb)).
      apply length_map.
Qed.

Lemma comma_splits_names_witness :
  (exists notes w'',
      searchNotes (always_exits 0 "Eggs, milk" "")
        (runAppleScript (always_exits 0 "Eggs, milk" ""))
        (lit "iCloud") (lit "milk") 0
      = Returned notes w''
      /\ map Note.title notes = [lit "Eggs"; lit "milk"]
      /\ Forall (fun t => ~ In comma t) (map Note.title notes)
      /\ List.length notes = 2)
  /\ (exists accounts,
         getAccounts (runAppleScript (always_exits 0 "Eggs, milk" "")) 0
         = Returned accounts 1
         /\ accounts = [lit "Eggs"; lit "milk"]).
Proof.
  assert (Hfree : Forall (fun p => ~ In comma p) [lit "Eggs"; lit " milk"]).
  { repeat constructor; simpl; intuition discriminate. }
  assert (Hnb : Forall (fun p => trim p <> []) [lit "Eggs"; lit " milk"]).
  { repeat constructor; discriminate. }
  destruct (comma_splits_names nat (always_exits 0 "Eggs, milk" "")
              (runAppleScript (always_exits 0 "Eggs, milk" ""))
              (lit "iCloud") 0
              (AppleScriptResult.make true (lit "Eggs, milk") None) 1
              [lit "Eggs"; lit " milk"] eq_refl eq_refl (le_n 2) Hfree)
    as (Hsearch & _ & Haccounts).
  split.
  - destruct (Hsearch (lit "milk") eq_refl)
      as (notes & w'' & Hrun & Ht & Hc & Hl).
    exists notes, w''.
    exact (conj Hrun (conj Ht (conj Hc (Hl Hnb)))).
  - destruct (Haccounts eq_refl) as (accounts & Hrun & Ha & _).
    exists accounts. exact (conj Hrun Ha).
Defined.

(** C10, as stated, fails: a note named [Groceries,] is one name with a
    comma in it, the command prints it, and [searchNotes] returns one
    note, titled [Groceries], not two or more. *)
Lemma trailing_comma_gives_one_note : ~ comma_output_gives_several_notes.
Proof.
  intros H.
  assert (Hin : In comma (lit "Groceries,")).
  { simpl. unfold comma. tauto. }
  pose proof (H (always_exits 0 "Groceries," "")
                (runAppleScript (always_exits 0 "Groceries," ""))
                (lit "iCloud") (lit "milk") 0
                (AppleScriptResult.make true (lit "Groceries,") None) 1
                [Note.make (lit "id1") (lit "Groceries") [] [] 2%Z 3%Z] 4
                eq_refl eq_refl Hin eq_refl) as Hlen.
  simpl in Hlen. lia.
Qed.

(** The run behind it. *)
Lemma trailing_comma_run :
  searchNotes (always_exits 0 "Groceries," "")
    (runAppleScript (always_exits 0 "Groceries," ""))
    (lit "iCloud") (lit "milk") 0
  = Returned [Note.make (lit "id1") (lit "Groceries") [] [] 2%Z 3%Z] 4.
Proof. vm_compute. reflexivity. Qed.

(* --------------------------------------------------------------------- *)
(** *** The error text of the process layer *)
(* --------------------------------------------------------------------- *)

Section ErrorTextHidden.

Variable W : Type.
Variable rt : Runtime W.
Variables exec1 exec2 : jsstring -> M W AppleScriptResult.t.
Hypothesis Hagree : same_but_error exec1 exec2.

(** Continuations that do not read the error text give the same result
    after either executor. *)
Lemma bind_same_but_error {A} (k1 k2 : AppleScriptResult.t -> M W A)
  script w :
  (forall success output error1 error2 w0,
      k1 (AppleScriptResult.make success output error1) w0
      = k2 (AppleScriptResult.make success output error2) w0) ->
  bind (exec1 script) k1 w = bind (exec2 script) k2 w.
Proof.
  intros Hk. unfold bind. pose proof (Hagree script w) as Hsw.
  destruct (exec1 script w) as [|m1 w1|[s1 o1 e1] w1],
           (exec2 script w) as [|m2 w2|[s2 o2 e2] w2];
    simpl in Hsw; try discriminate Hsw; try reflexivity.
  - inversion Hsw; subst. reflexivity.
  - unfold scrub in Hsw. simpl in Hsw. inversion Hsw; subst. apply Hk.
Qed.

Lemma getAccounts_same w : getAccounts exec1 w = getAccounts exec2 w.
Proof.
  unfold getAccounts. cbv zeta. apply bind_same_but_error.
  intros; reflexivity.
Qed.

Lemma createNote_same accountName title content tags folder w :
  createNote rt exec1 accountName title content tags folder w
  = createNote rt exec2 accountName title content tags folder w.
Proof.
  rewrite !createNote_unfold. apply bind_same_but_error.
  intros s o e1 e2 w0. simpl.
  destruct (strict_eq o (lit "folder not found")); [reflexivity|].
  destruct (negb s && negb (given folder)); [|reflexivity].
  apply bind_same_but_error. intros; reflexivity.
Qed.

Lemma searchNotes_same accountName query w :
  searchNotes rt exec1 accountName query w
  = searchNotes rt exec2 accountName query w.
Proof.
  unfold searchNotes. cbv zeta. apply bind_same_but_error.
  intros; reflexivity.
Qed.

Lemma getNoteContent_same accountName title w :
  getNoteContent exec1 accountName title w
  = getNoteContent exec2 accountName title w.
Proof.
  unfold getNoteContent. cbv zeta. apply bind_same_but_error.
  intros; reflexivity.
Qed.

Lemma editNote_same accountName title newContent w :
  editNote rt exec1 accountName title newContent w
  = editNote rt exec2 accountName title newContent w.
Proof.
  unfold editNote. cbv zeta. apply bind_same_but_error.
  intros; reflexivity.
Qed.

Lemma deleteNote_same accountName title w :
  deleteNote exec1 accountName title w = deleteNote exec2 accountName title w.
Proof.
  unfold deleteNote. cbv zeta. apply bind_same_but_error.
  intros; reflexivity.
Qed.

Lemma getFolders_same accountName w :
  getFolders rt exec1 accountName w = getFolders rt exec2 accountName w.
Proof.
  unfold getFolders. cbv zeta. apply bind_same_but_error.
  intros; reflexivity.
Qed.

Lemma moveNote_same accountName noteTitle targetFolderName w :
  moveNote exec1 accountName noteTitle targetFolderName w
  = moveNote exec2 accountName noteTitle targetFolderName w.
Proof.
  unfold moveNote. cbv zeta. apply bind_same_but_error.
  intros; reflexivity.
Qed.

End ErrorTextHidden.



(* --------------------------------------------------------------------- *)
(** *** The timeout *)
(* --------------------------------------------------------------------- *)

(** The bound is handed to [spawn]; the program keeps no timer. *)
Lemma osascript_call_timeout (script : jsstring) :
  timeout (osascript_call script) = 10000%N
  /\ args (osascript_call script) = [lit "-e"; script].
Proof. split; reflexivity. Qed.

(** A child ended by a signal, as the runtime does when the bound is
    passed, exits with a [null] code: the outcome is a failure. *)
Lemma killed_child_fails (W : Type) (rt : Runtime W) script w pre rest w' :
  forallb is_data pre = true ->
  spawn rt (osascript_call script) w
  = (Spawned (pre ++ ExitEvent None :: rest), w') ->
  exists message,
    runAppleScript rt script w
    = Returned (AppleScriptResult.make false [] (Some message)) w'.
Proof.
  intros Hd Hs. unfold runAppleScript. rewrite Hs.
  rewrite promise_of_exit_nonzero
    by (try discriminate; apply promise_of_data_pending; exact Hd).
  eexists. reflexivity.
Qed.

(** A child that only ever writes leaves the caller waiting. *)
Lemma silent_child_pending (W : Type) (rt : Runtime W) script w pre w' :
  forallb is_data pre = true ->
  spawn rt (osascript_call script) w = (Spawned pre, w') ->
  runAppleScript rt script w = Pending.
Proof.
  intros Hd Hs. unfold runAppleScript. rewrite Hs.
  rewrite promise_of_data_pending by exact Hd. reflexivity.
Qed.

(* ===================================================================== *)
(** ** Further properties *)
(* ===================================================================== *)

(* --------------------------------------------------------------------- *)
(** *** The sanitizer and [formatContent] *)
(* --------------------------------------------------------------------- *)

Lemma escape_char_length (c : char) :
  1 <= List.length (escape_char c) <= 5.
Proof.
  unfold escape_char.
  destruct (N.eqb c backslash); [simpl; lia|].
  destruct (N.eqb c dquote); [simpl; lia|].
  destruct (N.eqb c squote); [simpl; lia|].
  destruct (N.eqb c LF); [simpl; lia|].
  destruct (N.eqb c CR); [simpl; lia|].
  destruct (N.eqb c TAB); simpl; lia.
Qed.

Lemma sanitize_length_ge (s : jsstring) :
  List.length s <= List.length (sanitizeForAppleScript s).
Proof.
  induction s as [|c t IH]; [simpl; lia|].
  rewrite sanitize_cons, length_app. simpl List.length.
  pose proof (escape_char_length c). lia.
Qed.

(** X1.  The sanitized text is at least as long as the input and at most
    five times as long. *)
Theorem sanitize_length_bounds (s : jsstring) :
  List.length s <= List.length (sanitizeForAppleScript s)
  /\ List.length (sanitizeForAppleScript s) <= 5 * List.length s.
Proof.
  split; [apply sanitize_length_ge|].
  induction s as [|c t IH]; [simpl; lia|].
  rewrite sanitize_cons, length_app. simpl List.length.
  pose proof (escape_char_length c). lia.
Qed.

Lemma escape_char_needs (c : char) :
  needs_escape c = false -> escape_char c = [c].
Proof.
  unfold needs_escape. intros H.
  apply orb_false_iff in H as [H H6]. apply orb_false_iff in H as [H H5].
  apply orb_false_iff in H as [H H4]. apply orb_false_iff in H as [H H3].
  apply orb_false_iff in H as [H1 H2].
  unfold escape_char. rewrite H1, H2, H3, H4, H5, H6. reflexivity.
Qed.

Lemma escape_char_changes (c : char) (t u : jsstring) :
  needs_escape c = true ->
  List.length t <= List.length u ->
  escape_char c ++ u <> c :: t.
Proof.
  unfold needs_escape, escape_char. intros H Hlen Heq.
  destruct (N.eqb_spec c backslash) as [->|?].
  { injection Heq as Heq. apply (f_equal (@List.length char)) in Heq.
    simpl in Heq. lia. }
  destruct (N.eqb_spec c dquote) as [->|?]; [discriminate Heq|].
  destruct (N.eqb_spec c squote) as [->|?].
  { injection Heq as Heq. apply (f_equal (@List.length char)) in Heq.
    simpl in Heq. lia. }
  destruct (N.eqb_spec c LF) as [->|?]; [discriminate Heq|].
  destruct (N.eqb_spec c CR) as [->|?]; [discriminate Heq|].
  destruct (N.eqb_spec c TAB) as [->|?]; [discriminate Heq|].
  discriminate H.
Qed.

(** X2.  The sanitizer leaves a text as it is exactly when the text holds
    none of backslash, double quote, single quote, newline, carriage
    return and tab. *)
Theorem sanitize_identity_iff (s : jsstring) :
  sanitizeForAppleScript s = s
  <-> forallb (fun c => negb (needs_escape c)) s = true.
Proof.
  induction s as [|c t IH]; [split; reflexivity|].
  rewrite sanitize_cons. simpl forallb. rewrite andb_true_iff, <- IH.
  destruct (needs_escape c) eqn:E; simpl.
  - split.
    + intros H. exfalso.
      apply (escape_char_changes c t (sanitizeForAppleScript t) E);
        [apply sanitize_length_ge|exact H].
    + intros [H _]. discriminate H.
  - rewrite (escape_char_needs c E). simpl. split.
    + intros H. injection H as H. split; [reflexivity|exact H].
    + intros [_ H]. rewrite H. reflexivity.
Qed.

Lemma escape_char_no_control (c x : char) :
  In x (escape_char c) -> x <> LF /\ x <> CR /\ x <> TAB.
Proof.
  unfold escape_char.
  destruct (N.eqb_spec c backslash) as [->|?];
    [simpl; intuition (subst; discriminate)|].
  destruct (N.eqb_spec c dquote) as [->|?];
    [simpl; intuition (subst; discriminate)|].
  destruct (N.eqb_spec c squote) as [->|?];
    [simpl; intuition (subst; discriminate)|].
  destruct (N.eqb_spec c LF) as [->|?];
    [simpl; intuition (subst; discriminate)|].
  destruct (N.eqb_spec c CR) as [->|?];
    [simpl; intuition (subst; discriminate)|].
  destruct (N.eqb_spec c TAB) as [->|?];
    [simpl; intuition (subst; discriminate)|].
  simpl. intros [<-|[]]. repeat split; assumption.
Qed.

(** X3.  No newline, carriage return or tab is left in a sanitized text:
    whatever the input, the text stays on the line of the script it is put
    in. *)
Theorem sanitize_no_control_characters (s : jsstring) :
  ~ In LF (sanitizeForAppleScript s)
  /\ ~ In CR (sanitizeForAppleScript s)
  /\ ~ In TAB (sanitizeForAppleScript s).
Proof.
  rewrite sanitize_flat_map.
  repeat split; intros H; apply in_flat_map in H;
    destruct H as (c & _ & H); apply escape_char_no_control in H;
    destruct H as (H1 & H2 & H3); congruence.
Qed.

(** X4.  Sanitizing is done character by character: the sanitized text
    of a concatenation is the concatenation of the sanitized texts. *)
Theorem sanitize_app (a b : jsstring) :
  sanitizeForAppleScript (a ++ b)
  = sanitizeForAppleScript a ++ sanitizeForAppleScript b.
Proof.
  rewrite !sanitize_flat_map. apply flat_map_app.
Qed.

(** X5.  Different texts have different sanitized texts. *)
Theorem sanitize_injective (a b : jsstring) :
  sanitizeForAppleScript a = sanitizeForAppleScript b -> a = b.
Proof.
  intros H. rewrite <- (unescape_sanitize a), <- (unescape_sanitize b), H.
  reflexivity.
Qed.

Lemma sanitize_injective_witness :
  sanitizeForAppleScript (lit "a\b") = sanitizeForAppleScript (lit "a\b")
  /\ lit "a\b" = lit "a\b".
Proof.
  split; [reflexivity|].
  exact (sanitize_injective (lit "a\b") (lit "a\b") eq_refl).
Defined.

Lemma sanitize_squote_closes (s : jsstring) :
  In squote s ->
  exists early, scan_body false (sanitizeForAppleScript s) = Closed early.
Proof.
  induction s as [|c t IH]; intros Hin; [destruct Hin|].
  rewrite sanitize_cons.
  destruct (N.eqb_spec c squote) as [->|Hc].
  - eexists. reflexivity.
  - rewrite scan_body_escape_char by exact Hc.
    apply IH. destruct Hin as [Heq|Hin]; [congruence|exact Hin].
Qed.

(** X6.  The body of the literal is read to its end, without meeting an
    unescaped double quote and without a pending backslash, exactly when
    the input holds no single quote. *)
Theorem sanitized_literal_clean_iff (s : jsstring) :
  scan_body false (sanitizeForAppleScript s) = Clean <-> ~ In squote s.
Proof.
  split.
  - intros H Hin. destruct (sanitize_squote_closes s Hin) as (early & He).
    rewrite He in H. discriminate H.
  - intros H. rewrite <- (app_nil_r (sanitizeForAppleScript s)).
    rewrite sanitize_clean_without_squote by exact H. reflexivity.
Qed.

(** X7.  For an input without a single quote the literal the scripts
    build, the sanitized text between double quotes, closes at its own
    closing quote: what follows it in the script is read as script. *)
Theorem sanitized_literal_closes_at_delimiter (s rest : jsstring) :
  ~ In squote s ->
  scan_body false (tl (quoted (sanitizeForAppleScript s)) ++ rest)
  = Closed rest.
Proof.
  intros H. unfold quoted, literal_template. simpl tl.
  rewrite <- app_assoc, sanitize_clean_without_squote by exact H.
  reflexivity.
Qed.

Lemma sanitized_literal_closes_at_delimiter_witness :
  ~ In squote (lit "abc") /\
  scan_body false
    (tl (quoted (sanitizeForAppleScript (lit "abc"))) ++ lit " then")
  = Closed (lit " then").
Proof.
  assert (H : ~ In squote (lit "abc")) by (simpl; intuition discriminate).
  exact (conj H (sanitized_literal_closes_at_delimiter (lit "abc")
                   (lit " then") H)).
Defined.

Lemma formatContent_flat_map (content : jsstring) :
  formatContent content
  = flat_map (fun c => if N.eqb c LF then lit "<br>" else [c]) content.
Proof.
  destruct content as [|c t]; [reflexivity|].
  unfold formatContent. change (negb (truthy (c :: t))) with false.
  cbv iota. apply replaceAll_flat_map.
Qed.

(** X8.  The content put into a script, formatted and then sanitized,
    holds [<br>] for every line break of the content and the escape of
    every other character; the formatted content holds no line break, so
    the newline step of the sanitizer finds nothing to rewrite. *)
Theorem sanitized_content_char_wise (content : jsstring) :
  ~ In LF (formatContent content)
  /\ sanitizeForAppleScript (formatContent content)
     = flat_map content_char content.
Proof.
  rewrite formatContent_flat_map, sanitize_flat_map. split.
  - intros H. apply in_flat_map in H. destruct H as (c & _ & H).
    cbv beta in H. destruct (N.eqb_spec c LF) as [Hc|Hc].
    + simpl in H. intuition discriminate.
    + destruct H as [H|[]]. apply Hc. exact H.
  - induction content as [|c t IH]; [reflexivity|].
    simpl. rewrite flat_map_app, IH. f_equal.
    unfold content_char. destruct (N.eqb_spec c LF) as [->|Hc].
    + reflexivity.
    + simpl. apply app_nil_r.
Qed.

(* --------------------------------------------------------------------- *)
(** *** The executor, on every trace *)
(* --------------------------------------------------------------------- *)

Section ExecutorInvariants.

Variable toString_utf8 : Buffer -> jsstring.

Lemma promise_of_snoc events ev :
  promise_of toString_utf8 (events ++ [ev])
  = settled (on_event toString_utf8
               (fold_left (on_event toString_utf8) events exec_init) ev).
Proof. unfold promise_of. rewrite fold_left_app. reflexivity. Qed.

Lemma resolve_settled r st :
  settled (resolve r st) = match settled st with
                           | Some r0 => Some r0
                           | None => Some r
                           end.
Proof.
  unfold resolve. destruct (settled st) eqn:E; simpl; [exact E|reflexivity].
Qed.



Lemma promise_of_settled_not_data events :
  forallb is_data events = false ->
  promise_of toString_utf8 events <> None.
Proof.
  induction events as [|ev events IH] using rev_ind; [discriminate|].
  rewrite forallb_app. simpl. rewrite andb_true_r. intros H.
  rewrite promise_of_snoc.
  destruct (forallb is_data events) eqn:Ed.
  - simpl in H. pose proof (promise_of_data_pending toString_utf8 _ Ed) as Hp.
    unfold promise_of in Hp.
    destruct ev as [c|c|message|code]; try discriminate H; simpl.
    + rewrite resolve_settled, Hp. discriminate.
    + destruct (code_is_zero code); rewrite resolve_settled, Hp; discriminate.
  - specialize (IH eq_refl). unfold promise_of in IH.
    destruct (settled (fold_left (on_event toString_utf8) events exec_init))
      as [r0|] eqn:E; [|congruence].
    destruct ev as [c|c|message|code]; simpl; try (rewrite E; discriminate).
    + rewrite resolve_settled, E. discriminate.
    + destruct (code_is_zero code); rewrite resolve_settled, E; discriminate.
Qed.

Lemma promise_of_pending_iff events :
  promise_of toString_utf8 events = None <-> forallb is_data events = true.
Proof.
  split.
  - intros H. destruct (forallb is_data events) eqn:E; [reflexivity|].
    exfalso. exact (promise_of_settled_not_data events E H).
  - apply promise_of_data_pending.
Qed.

End ExecutorInvariants.


(** X10.  [runAppleScript] leaves its caller waiting exactly when the
    child emits neither an exit nor an error event: the program itself
    sets no timer. *)
Theorem runAppleScript_pending_iff
  (W : Type) (rt : Runtime W) (script : jsstring) (w : W) :
  runAppleScript rt script w = Pending
  <-> exists events,
        fst (spawn rt (osascript_call script) w) = Spawned events
        /\ forallb is_data events = true.
Proof.
  unfold runAppleScript.
  destruct (spawn rt (osascript_call script) w) as [[message|events] w'];
    simpl.
  - split; [discriminate|]. intros (events & H & _). discriminate H.
  - split.
    + intros H. exists events. split; [reflexivity|].
      apply (promise_of_pending_iff (utf8 rt)).
      destruct (promise_of (utf8 rt) events); [discriminate H|reflexivity].
    + intros (events' & H & Hp). injection H as <-.
      apply (promise_of_pending_iff (utf8 rt)) in Hp. rewrite Hp.
      reflexivity.
Qed.

(** X11.  How the output arrives does not matter: two children that
    write the same bytes to each stream, cut into chunks and interleaved
    in any way, and then end with the same event, give the same outcome. *)
Theorem runAppleScript_chunking_irrelevant
  (utf8 : Buffer -> jsstring) (pre1 pre2 : list child_event)
  (ev : child_event) (rest1 rest2 : list child_event) :
  forallb is_data pre1 = true ->
  forallb is_data pre2 = true ->
  List.concat (stdout_chunks pre1) = List.concat (stdout_chunks pre2) ->
  List.concat (stderr_chunks pre1) = List.concat (stderr_chunks pre2) ->
  is_data ev = false ->
  promise_of utf8 (pre1 ++ ev :: rest1) = promise_of utf8 (pre2 ++ ev :: rest2).
Proof.
  intros H1 H2 Hout Herr Hev.
  pose proof (promise_of_data_pending utf8 pre1 H1) as P1.
  pose proof (promise_of_data_pending utf8 pre2 H2) as P2.
  destruct ev as [c|c|message|code]; try discriminate Hev.
  - rewrite !promise_of_error by assumption. reflexivity.
  - destruct (Z.eq_dec (match code with Some n => n | None => 1%Z end) 0)
      as [Hz|Hz].
    + destruct code as [n|]; [|discriminate Hz]. subst n.
      rewrite !promise_of_exit_zero by assumption. rewrite Hout.
      reflexivity.
    + assert (Hc : code <> Some 0%Z) by (intros ->; apply Hz; reflexivity).
      rewrite !promise_of_exit_nonzero by assumption. rewrite Herr.
      reflexivity.
Qed.

Lemma runAppleScript_chunking_irrelevant_witness :
  promise_of (map Byte.to_N)
    [StdoutData (list_byte_of_string "Eggs, ");
     StderrData (list_byte_of_string "");
     StdoutData (list_byte_of_string "milk");
     ExitEvent (Some 0%Z)]
  = promise_of (map Byte.to_N)
      [StdoutData (list_byte_of_string "Eggs, milk");
       ExitEvent (Some 0%Z); ExitEvent (Some 1%Z)].
Proof.
  exact (runAppleScript_chunking_irrelevant (map Byte.to_N)
           [StdoutData (list_byte_of_string "Eggs, ");
            StderrData (list_byte_of_string "");
            StdoutData (list_byte_of_string "milk")]
           [StdoutData (list_byte_of_string "Eggs, milk")]
           (ExitEvent (Some 0%Z)) [] [ExitEvent (Some 1%Z)]
           eq_refl eq_refl eq_refl eq_refl eq_refl).
Defined.

(* --------------------------------------------------------------------- *)
(** *** The rate limiter *)
(* --------------------------------------------------------------------- *)

Section RateLimiter.

Variable W : Type.
Variable rt : Runtime W.

(** One call, by the clock reading and the window found. *)
Lemma checkRateLimit_unfold toolName (s : Server W) :
  checkRateLimit rt toolName s
  = let (now, w') := newDate rt (world s) in
    match requestCounts s toolName with
    | None =>
        Returned tt
          {| requestCounts :=
               map_set (requestCounts s) toolName
                 (RateWindow.make 1 (now + RATE_LIMIT_WINDOW));
             world := w' |}
    | Some l =>
        if Z.ltb (RateWindow.resetTime l) now then
          Returned tt
            {| requestCounts :=
                 map_set (requestCounts s) toolName
                   (RateWindow.make 1 (now + RATE_LIMIT_WINDOW));
               world := w' |}
        else if Z.leb MAX_REQUESTS_PER_WINDOW (RateWindow.count l) then
          Thrown (lit "Rate limit exceeded. Please try again later.")
            {| requestCounts := requestCounts s; world := w' |}
        else
          Returned tt
            {| requestCounts :=
                 map_set (requestCounts s) toolName
                   (RateWindow.make (RateWindow.count l + 1)
                      (RateWindow.resetTime l));
               world := w' |}
    end.
Proof.
  unfold checkRateLimit, dateNow, bind, in_world, lift, map_get.
  destruct (newDate rt (world s)) as [now w']. reflexivity.
Qed.

Lemma map_set_same m key v : map_set m key v key = Some v.
Proof. unfold map_set. rewrite strict_eq_refl. reflexivity. Qed.

Lemma map_set_other m key v other :
  other <> key -> map_set m key v other = m other.
Proof. intros H. unfold map_set. rewrite (strict_eq_neq _ _ H). reflexivity. Qed.

Lemma map_set_rate_ok m key v :
  rate_ok m ->
  (1 <= RateWindow.count v <= MAX_REQUESTS_PER_WINDOW)%Z ->
  rate_ok (map_set m key v).
Proof.
  intros Hm Hv k l. unfold map_set.
  destruct (strict_eq k key); [intros H; injection H as <-; exact Hv|].
  apply Hm.
Qed.

(** The call that finds a full window still open is turned away, and
    the map is as it was. *)
Lemma checkRateLimit_rejects toolName (s : Server W) now w' l :
  newDate rt (world s) = (now, w') ->
  requestCounts s toolName = Some l ->
  (now <= RateWindow.resetTime l)%Z ->
  (MAX_REQUESTS_PER_WINDOW <= RateWindow.count l)%Z ->
  checkRateLimit rt toolName s
  = Thrown (lit "Rate limit exceeded. Please try again later.")
      {| requestCounts := requestCounts s; world := w' |}.
Proof.
  intros Hn Hl Ht Hc. rewrite checkRateLimit_unfold, Hn, Hl.
  rewrite (proj2 (Z.ltb_ge _ _) Ht), (proj2 (Z.leb_le _ _) Hc).
  reflexivity.
Qed.

(** With the window open until after every clock reading, the calls let
    through are those the window has room for. *)
Lemma accepted_calls_open toolName n :
  forall (s : Server W) l,
    requestCounts s toolName = Some l ->
    (forall w, fst (newDate rt w) <= RateWindow.resetTime l)%Z ->
    (0 <= RateWindow.count l <= MAX_REQUESTS_PER_WINDOW)%Z ->
    accepted_calls rt toolName n s
    = Nat.min n (Z.to_nat (MAX_REQUESTS_PER_WINDOW - RateWindow.count l)).
Proof.
  induction n as [|n IH]; intros s l Hl Hclock Hc; [reflexivity|].
  simpl accepted_calls. rewrite checkRateLimit_unfold, Hl.
  pose proof (Hclock (world s)) as Hnow.
  destruct (newDate rt (world s)) as [now w']. simpl in Hnow.
  rewrite (proj2 (Z.ltb_ge _ _) Hnow).
  destruct (Z.leb_spec MAX_REQUESTS_PER_WINDOW (RateWindow.count l))
    as [Hfull|Hroom].
  - rewrite (IH {| requestCounts := requestCounts s; world := w' |} l
               Hl Hclock Hc).
    unfold MAX_REQUESTS_PER_WINDOW in *. lia.
  - rewrite (IH _ (RateWindow.make (RateWindow.count l + 1)
                     (RateWindow.resetTime l))).
    + cbn [RateWindow.count]. unfold MAX_REQUESTS_PER_WINDOW in *. lia.
    + apply map_set_same.
    + exact Hclock.
    + cbn [RateWindow.count]. unfold MAX_REQUESTS_PER_WINDOW in *. lia.
Qed.

End RateLimiter.

(** X12.  The limiter keeps every window's count between 1 and 30, and a
    call always ends: it is let through or turned away. *)
Theorem checkRateLimit_keeps_counts_bounded
  (W : Type) (rt : Runtime W) (toolName : jsstring) (s : Server W) :
  rate_ok (requestCounts s) ->
  match checkRateLimit rt toolName s with
  | Pending => False
  | Thrown _ s' => rate_ok (requestCounts s')
  | Returned _ s' => rate_ok (requestCounts s')
  end.
Proof.
  intros Hok. rewrite checkRateLimit_unfold.
  destruct (newDate rt (world s)) as [now w'].
  destruct (requestCounts s toolName) as [l|] eqn:El.
  - destruct (Z.ltb (RateWindow.resetTime l) now).
    + apply map_set_rate_ok; [exact Hok|]. simpl.
      unfold MAX_REQUESTS_PER_WINDOW. lia.
    + destruct (Z.leb_spec MAX_REQUESTS_PER_WINDOW (RateWindow.count l))
        as [Hfull|Hroom]; [exact Hok|].
      apply map_set_rate_ok; [exact Hok|]. simpl.
      pose proof (Hok _ _ El). lia.
  - apply map_set_rate_ok; [exact Hok|]. simpl.
    unfold MAX_REQUESTS_PER_WINDOW. lia.
Qed.

Lemma checkRateLimit_keeps_counts_bounded_witness :
  rate_ok map_empty
  /\ match checkRateLimit (ticking_runtime 1000 "") (lit "search-notes")
             (fresh_server 0) with
     | Pending => False
     | Thrown _ s' => rate_ok (requestCounts s')
     | Returned _ s' => rate_ok (requestCounts s')
     end.
Proof.
  assert (H : rate_ok map_empty) by (intros key l E; discriminate E).
  exact (conj H (checkRateLimit_keeps_counts_bounded nat
                   (ticking_runtime 1000 "") (lit "search-notes")
                   (fresh_server 0) H)).
Defined.

(** X13.  A call changes no window but the one of its own tool, and a
    call that is turned away changes no window at all. *)
Theorem checkRateLimit_touches_own_window
  (W : Type) (rt : Runtime W) (toolName other : jsstring) (s : Server W) :
  other <> toolName ->
  match checkRateLimit rt toolName s with
  | Pending => False
  | Thrown _ s' => requestCounts s' = requestCounts s
  | Returned _ s' => requestCounts s' other = requestCounts s other
  end.
Proof.
  intros Hne. rewrite checkRateLimit_unfold.
  destruct (newDate rt (world s)) as [now w'].
  destruct (requestCounts s toolName) as [l|].
  - destruct (Z.ltb (RateWindow.resetTime l) now);
      [apply map_set_other; exact Hne|].
    destruct (Z.leb MAX_REQUESTS_PER_WINDOW (RateWindow.count l));
      [reflexivity|apply map_set_other; exact Hne].
  - apply map_set_other. exact Hne.
Qed.

Lemma checkRateLimit_touches_own_window_witness :
  lit "edit-note" <> lit "search-notes"
  /\ match checkRateLimit (ticking_runtime 1000 "") (lit "search-notes")
             (fresh_server 0) with
     | Pending => False
     | Thrown _ s' => requestCounts s' = map_empty
     | Returned _ s' => requestCounts s' (lit "edit-note") = None
     end.
Proof.
  assert (H : lit "edit-note" <> lit "search-notes") by discriminate.
  exact (conj H (checkRateLimit_touches_own_window nat
                   (ticking_runtime 1000 "") (lit "search-notes")
                   (lit "edit-note") (fresh_server 0) H)).
Defined.

(** X14.  While all clock readings lie within one window length of each
    other, a tool that has no window yet, or whose window has run out,
    gets exactly 30 calls: of [n] calls in a row the first 30 are let
    through and the others are turned away. *)
Theorem rate_limit_allows_thirty
  (W : Type) (rt : Runtime W) (toolName : jsstring) (t0 : Z) (n : nat)
  (s : Server W) :
  (forall w, t0 <= fst (newDate rt w) <= t0 + RATE_LIMIT_WINDOW)%Z ->
  match requestCounts s toolName with
  | None => True
  | Some l => (RateWindow.resetTime l < t0)%Z
  end ->
  accepted_calls rt toolName n s = Nat.min n 30.
Proof.
  intros Hclock Hstart. destruct n as [|n]; [reflexivity|].
  simpl accepted_calls. rewrite checkRateLimit_unfold.
  pose proof (Hclock (world s)) as Hnow.
  destruct (newDate rt (world s)) as [now w']. simpl in Hnow.
  assert (Hopen :
    accepted_calls rt toolName n
      {| requestCounts :=
           map_set (requestCounts s) toolName
             (RateWindow.make 1 (now + RATE_LIMIT_WINDOW));
         world := w' |}
    = Nat.min n 29).
  { rewrite (accepted_calls_open W rt toolName n _
               (RateWindow.make 1 (now + RATE_LIMIT_WINDOW))).
    - reflexivity.
    - apply map_set_same.
    - intros w. simpl. pose proof (Hclock w). lia.
    - simpl. unfold MAX_REQUESTS_PER_WINDOW. lia. }
  destruct (requestCounts s toolName) as [l|].
  - rewrite (proj2 (Z.ltb_lt _ _)) by lia. rewrite Hopen. lia.
  - rewrite Hopen. lia.
Qed.

Lemma rate_limit_allows_thirty_witness :
  accepted_calls (ticking_runtime 0 "") (lit "search-notes") 35
    (fresh_server 0) = 30.
Proof.
  apply (rate_limit_allows_thirty nat (ticking_runtime 0 "")
           (lit "search-notes") 0 35 (fresh_server 0)).
  - intros w. unfold RATE_LIMIT_WINDOW. simpl. lia.
  - exact I.
Defined.

(* --------------------------------------------------------------------- *)
(** *** The manager: what the results hold *)
(* --------------------------------------------------------------------- *)

Section ManagerResults.

Variable W : Type.
Variable rt : Runtime W.
Variable exec : jsstring -> M W AppleScriptResult.t.
Variable accountName : jsstring.

(** What holds of every value the callback returns holds of every
    element of the mapped array. *)
Lemma mapM_Forall {A B} (f : A -> M W B) (P : B -> Prop) :
  (forall x w y w', f x w = Returned y w' -> P y) ->
  forall xs w ys w', mapM f xs w = Returned ys w' -> Forall P ys.
Proof.
  intros Hf. induction xs as [|x xs IH]; intros w ys w'; simpl.
  - unfold ret. intros H. injection H as <- _. constructor.
  - unfold bind. destruct (f x w) as [|m w1|y w1] eqn:E; try discriminate.
    destruct (mapM f xs w1) as [|m w2|ys' w2] eqn:E2; try discriminate.
    unfold ret. intros H. injection H as <- _.
    constructor; [exact (Hf _ _ _ _ E)|exact (IH _ _ _ E2)].
Qed.

Lemma Forall_filter_both {A} (P : A -> Prop) (p : A -> bool) l :
  Forall P l -> Forall (fun x => P x /\ p x = true) (filter p l).
Proof.
  induction 1 as [|x l Hx _ IH]; simpl; [constructor|].
  destruct (p x) eqn:E; [constructor; [split; assumption|exact IH]|exact IH].
Qed.

Lemma truthy_nonempty (s : jsstring) : truthy s = true -> s <> [].
Proof. destruct s; [discriminate|discriminate]. Qed.

Lemma searchNotes_items query w :
  match searchNotes rt exec accountName query w with
  | Returned notes _ =>
      Forall (fun n => Note.content n = [] /\ Note.tags n = []
                       /\ trim (Note.title n) = Note.title n) notes
  | _ => True
  end.
Proof.
  unfold searchNotes. unfold bind at 1. cbv zeta.
  destruct (exec _ w) as [|m w1|r w1]; try exact I.
  destruct (AppleScriptResult.success r); cbn [negb]; [|exact I].
  destruct (_ || _); [constructor|].
  match goal with |- match ?c with _ => _ end => destruct c eqn:E end;
    try exact I.
  eapply mapM_Forall; [|exact E].
  intros x v y v'. unfold bind, lift, ret.
  destruct (randomUUID rt v) as [id v2].
  destruct (newDate rt v2) as [created v3].
  destruct (newDate rt v3) as [modified v4].
  intros H. injection H as <- _. simpl.
  repeat split. apply trim_idem.
Qed.

Lemma getFolders_items w :
  match getFolders rt exec accountName w with
  | Returned folders _ =>
      Forall (fun f => Folder.name f <> []
                       /\ trim (Folder.name f) = Folder.name f
                       /\ Folder.account f = accountName) folders
  | _ => True
  end.
Proof.
  unfold getFolders. unfold bind at 1. cbv zeta.
  destruct (exec _ w) as [|m w1|r w1]; try exact I.
  destruct (AppleScriptResult.success r); cbn [negb]; [|exact I].
  destruct (_ || _); [constructor|].
  unfold bind at 1.
  match goal with
  | |- match (match ?c with _ => _ end) with _ => _ end =>
      destruct c as [|m w2|folders w2] eqn:E
  end; try exact I.
  unfold ret.
  assert (HF : Forall (fun f => trim (Folder.name f) = Folder.name f
                               /\ Folder.account f = accountName) folders).
  { eapply mapM_Forall; [|exact E].
    intros x v y v'. unfold bind, lift, ret.
    destruct (randomUUID rt v) as [id v2].
    intros H. injection H as <- _. simpl.
    split; [apply trim_idem|reflexivity]. }
  apply (Forall_filter_both _ (fun folder => truthy (Folder.name folder)))
    in HF.
  eapply Forall_impl; [|exact HF].
  intros f [[Ht Ha] Hn]. split; [apply truthy_nonempty; exact Hn|].
  split; assumption.
Qed.

Lemma getAccounts_items w :
  match getAccounts exec w with
  | Returned accounts _ =>
      Forall (fun a => a <> [] /\ trim a = a) accounts
  | _ => True
  end.
Proof.
  unfold getAccounts, bind. cbv zeta.
  destruct (exec _ w) as [|m w1|r w1]; try exact I.
  destruct (AppleScriptResult.success r); cbn [negb]; [|exact I].
  unfold ret.
  pose proof (Forall_filter_both _ truthy _
                (Forall_trimmed_map_trim
                   (split comma (AppleScriptResult.output r)))) as HF.
  eapply Forall_impl; [|exact HF].
  intros a [Ht Hn]. split; [apply truthy_nonempty; exact Hn|exact Ht].
Qed.

Lemma trim_all_whitespace (s : jsstring) :
  forallb isWhiteSpace s = true -> trim s = [].
Proof.
  intros H. unfold trim.
  assert (Hs : trimStart s = []).
  { induction s as [|c t IH]; [reflexivity|].
    simpl in H. apply andb_true_iff in H as [Hc Ht].
    simpl. rewrite Hc. apply IH. exact Ht. }
  rewrite Hs. reflexivity.
Qed.

Lemma whitespace_no_comma (s : jsstring) :
  forallb isWhiteSpace s = true -> ~ In comma s.
Proof.
  intros H Hin. rewrite forallb_forall in H.
  specialize (H comma Hin). discriminate H.
Qed.

Lemma new_note_returns title content tags w :
  exists id created modified w',
    new_note rt title content tags w
    = Returned (Note.make id title content tags created modified) w'.
Proof.
  unfold new_note, bind, lift, ret.
  destruct (randomUUID rt w) as [id w1].
  destruct (newDate rt w1) as [created w2].
  destruct (newDate rt w2) as [modified w3].
  eexists _, _, _, _. reflexivity.
Qed.

End ManagerResults.

(** X15.  Whatever the command printed, the items the list operations
    return are clean: the notes of [searchNotes] have a trimmed title,
    empty content and no tags; the folders of [getFolders] have a
    non-empty trimmed name and the account of the manager; the accounts of
    [getAccounts] are non-empty and trimmed. *)
Theorem listed_items_are_clean
  (W : Type) (rt : Runtime W) (exec : jsstring -> M W AppleScriptResult.t)
  (accountName query : jsstring) (w : W) :
  match searchNotes rt exec accountName query w with
  | Returned notes _ =>
      Forall (fun n => Note.content n = [] /\ Note.tags n = []
                       /\ trim (Note.title n) = Note.title n) notes
  | _ => True
  end
  /\ match getFolders rt exec accountName w with
     | Returned folders _ =>
         Forall (fun f => Folder.name f <> []
                          /\ trim (Folder.name f) = Folder.name f
                          /\ Folder.account f = accountName) folders
     | _ => True
     end
  /\ match getAccounts exec w with
     | Returned accounts _ =>
         Forall (fun a => a <> [] /\ trim a = a) accounts
     | _ => True
     end.
Proof.
  split; [apply searchNotes_items|].
  split; [apply getFolders_items|apply getAccounts_items].
Qed.

(** X16.  [getAccounts] has no guard for an empty output, and needs
    none: on a successful outcome whose output is empty or only white
    space it returns the empty array. *)
Theorem getAccounts_blank_output
  (W : Type) (exec : jsstring -> M W AppleScriptResult.t)
  (w : W) (r : AppleScriptResult.t) (w' : W) :
  exec getAccounts_script w = Returned r w' ->
  AppleScriptResult.success r = true ->
  forallb isWhiteSpace (AppleScriptResult.output r) = true ->
  getAccounts exec w = Returned [] w'.
Proof.
  intros H Hs Hb. rewrite (getAccounts_decoded W exec _ _ _ H Hs).
  rewrite (split_no_sep comma _ (whitespace_no_comma _ Hb)). simpl.
  rewrite (trim_all_whitespace _ Hb). reflexivity.
Qed.

Lemma getAccounts_blank_output_witness :
  getAccounts blank_executor 0 = Returned [] 1.
Proof.
  exact (getAccounts_blank_output nat blank_executor 0
           (AppleScriptResult.make true (lit "  ") None) 1
           eq_refl eq_refl eq_refl).
Defined.

(** A folder given as the empty string is no folder: [createNote]
    and the [create-note] tool do with it exactly what they do without a
    folder. *)
Lemma createNote_empty_folder_is_none
  (W : Type) (rt : Runtime W) (exec : jsstring -> M W AppleScriptResult.t)
  (accountName title content : jsstring) (tags : list jsstring) :
  (forall w,
      createNote rt exec accountName title content tags (Some []) w
      = createNote rt exec accountName title content tags None w)
  /\ (forall s,
        create_note_tool rt exec accountName title content (Some tags)
          (Some []) s
        = create_note_tool rt exec accountName title content (Some tags)
            None s).
Proof.
  split; intros; reflexivity.
Qed.

(** X17.  A note that was created or edited comes back with the text of
    the caller, not the text put into the script: the title, content and
    tags of [createNote], the title and new content of [editNote], are
    returned as they were given. *)
Theorem returned_note_holds_callers_text
  (W : Type) (rt : Runtime W) (exec : jsstring -> M W AppleScriptResult.t)
  (accountName title content : jsstring) (tags : list jsstring)
  (folder : option jsstring) (w : W) (r : AppleScriptResult.t) (w' : W) :
  AppleScriptResult.success r = true ->
  (exec (createNote_script accountName title content folder) w
     = Returned r w' ->
   AppleScriptResult.output r <> lit "folder not found" ->
   exists id created modified w'',
     createNote rt exec accountName title content tags folder w
     = Returned (Note.make id title content tags created modified) w'')
  /\ (exec (editNote_script (sanitizeForAppleScript accountName)
              (sanitizeForAppleScript title)
              (sanitizeForAppleScript (formatContent content))) w
        = Returned r w' ->
      AppleScriptResult.output r <> lit "not found" ->
      exists id created modified w'',
        editNote rt exec accountName title content w
        = Returned
            (OpResult.make true
               (Some (Note.make id title content [] created modified)) None)
            w'').
Proof.
  intros Hs. split.
  - intros H Ho. rewrite createNote_unfold. unfold bind at 1.
    rewrite H, (strict_eq_neq _ _ Ho), Hs. cbn [negb andb].
    apply new_note_returns.
  - intros H Ho. unfold editNote. unfold bind at 1. cbv zeta.
    rewrite H, Hs, (strict_eq_neq _ _ Ho). cbn [negb].
    unfold bind, lift, ret.
    destruct (randomUUID rt w') as [id w1].
    destruct (newDate rt w1) as [created w2].
    destruct (newDate rt w2) as [modified w3].
    eexists _, _, _, _. reflexivity.
Qed.

Lemma returned_note_holds_callers_text_witness :
  (exists id created modified w'',
      createNote (always_exits 0 "created" "")
        (runAppleScript (always_exits 0 "created" ""))
        (lit "iCloud") (lit "it's") (lit "a\b") [lit "x"] None 0
      = Returned
          (Note.make id (lit "it's") (lit "a\b") [lit "x"] created modified)
          w'')
  /\ (exists id created modified w'',
         editNote (always_exits 0 "created" "")
           (runAppleScript (always_exits 0 "created" ""))
           (lit "iCloud") (lit "it's") (lit "a\b") 0
         = Returned
             (OpResult.make true
                (Some (Note.make id (lit "it's") (lit "a\b") [] created
                         modified)) None)
             w'').
Proof.
  destruct (returned_note_holds_callers_text nat
              (always_exits 0 "created" "")
              (runAppleScript (always_exits 0 "created" ""))
              (lit "iCloud") (lit "it's") (lit "a\b") [lit "x"] None 0
              (AppleScriptResult.make true (lit "created") None) 1 eq_refl)
    as (Hcreate & Hedit).
  split.
  - apply (Hcreate eq_refl). discriminate.
  - apply (Hedit eq_refl). discriminate.
Defined.

(* --------------------------------------------------------------------- *)
(** *** The tool handlers *)
(* --------------------------------------------------------------------- *)

Section ToolFacts.

Variable W : Type.
Variable rt : Runtime W.

Lemma try_catch_never_throws {S A} (m : M S A) (h : jsstring -> M S A) s :
  (forall message s', never_throws (h message s')) ->
  never_throws (try_catch m h s).
Proof.
  intros Hh. unfold try_catch. destruct (m s); [exact I|apply Hh|exact I].
Qed.

Lemma rate_limit_or_never_throws fixed message (s : Server W) :
  never_throws (rate_limit_or fixed message s).
Proof. exact I. Qed.

Lemma guarded_rejected {A} toolName (op : M W A) k h s now w' l :
  newDate rt (world s) = (now, w') ->
  requestCounts s toolName = Some l ->
  (now <= RateWindow.resetTime l)%Z ->
  (MAX_REQUESTS_PER_WINDOW <= RateWindow.count l)%Z ->
  guarded rt toolName op k h s
  = h (lit "Rate limit exceeded. Please try again later.")
      {| requestCounts := requestCounts s; world := w' |}.
Proof.
  intros Hn Hl Ht Hc. unfold guarded, try_catch. unfold bind at 1.
  rewrite (checkRateLimit_rejects W rt toolName s now w' l Hn Hl Ht Hc).
  reflexivity.
Qed.

Lemma guarded_ext {A} toolName (op1 op2 : M W A) k h s :
  (forall w, op1 w = op2 w) ->
  guarded rt toolName op1 k h s = guarded rt toolName op2 k h s.
Proof.
  intros Hop. unfold guarded, try_catch. unfold bind at 1 3.
  destruct (checkRateLimit rt toolName s) as [|m s1|[] s1]; try reflexivity.
  unfold bind, in_world. rewrite Hop. reflexivity.
Qed.

Lemma rate_limit_or_among fixed fixedlist message (s : Server W) :
  In fixed fixedlist ->
  match rate_limit_or fixed message s with
  | Returned resp _ => error_text_among fixedlist resp = true
  | _ => True
  end.
Proof.
  intros Hin. unfold rate_limit_or, ret, error_text_among. simpl.
  destruct (includes message (lit "Rate limit")) eqn:E.
  - rewrite E. reflexivity.
  - apply orb_true_iff. right. apply existsb_exists.
    exists fixed. split; [exact Hin|apply strict_eq_refl].
Qed.

Lemma guarded_among {A} toolName fixed fixedlist (op : M W A) k s :
  In fixed fixedlist ->
  (forall a w w' s',
      op w = Returned a w' ->
      match k a s' with
      | Returned resp _ => error_text_among fixedlist resp = true
      | Thrown _ _ => False
      | Pending => True
      end) ->
  match guarded rt toolName op k (rate_limit_or fixed) s with
  | Returned resp _ => error_text_among fixedlist resp = true
  | _ => True
  end.
Proof.
  intros Hin Hk. unfold guarded, try_catch. unfold bind at 1.
  destruct (checkRateLimit rt toolName s) as [|m s1|[] s1]; [exact I| |].
  - apply rate_limit_or_among. exact Hin.
  - unfold bind, in_world.
    destruct (op (world s1)) as [|m w2|a w2] eqn:E; [exact I| |].
    + apply rate_limit_or_among. exact Hin.
    + specialize (Hk a (world s1) w2
                    {| requestCounts := requestCounts s1; world := w2 |} E).
      destruct (k a _) as [|m s3|resp s3]; [exact I|destruct Hk|exact Hk].
Qed.

Lemma checkRateLimit_settles toolName (s : Server W) :
  settles (checkRateLimit rt toolName s).
Proof.
  rewrite checkRateLimit_unfold.
  destruct (newDate rt (world s)) as [now w'].
  destruct (requestCounts s toolName) as [l|]; [|exact I].
  destruct (Z.ltb (RateWindow.resetTime l) now); [exact I|].
  destruct (Z.leb MAX_REQUESTS_PER_WINDOW (RateWindow.count l)); exact I.
Qed.

Lemma bind_settles {S A B} (m : M S A) (k : A -> M S B) s :
  settles (m s) -> (forall a s', settles (k a s')) -> settles (bind m k s).
Proof.
  intros Hm Hk. unfold bind. destruct (m s); [destruct Hm|exact I|apply Hk].
Qed.

Lemma lift_settles {A} (f : W -> A * W) w : settles (lift f w).
Proof. unfold lift. destruct (f w). exact I. Qed.

Lemma mapM_settles {S A B} (f : A -> M S B) xs :
  (forall x s, settles (f x s)) -> forall s, settles (mapM f xs s).
Proof.
  intros Hf. induction xs as [|x xs IH]; intros s; simpl; [exact I|].
  apply bind_settles; [apply Hf|]. intros y s'.
  apply bind_settles; [apply IH|]. intros ys s''. exact I.
Qed.

Lemma in_world_settles {A} (m : M W A) (s : Server W) :
  settles (m (world s)) -> settles (in_world m s).
Proof.
  unfold in_world. destruct (m (world s)); intros H; [destruct H|exact I|exact I].
Qed.

Lemma guarded_returns {A} toolName (op : M W A) k h s :
  (forall w, settles (op w)) ->
  (forall a s', exists resp s'', k a s' = Returned resp s'') ->
  (forall message s', exists resp s'', h message s' = Returned resp s'') ->
  exists resp s', guarded rt toolName op k h s = Returned resp s'.
Proof.
  intros Hop Hk Hh. unfold guarded, try_catch. unfold bind at 1.
  pose proof (checkRateLimit_settles toolName s) as Hc.
  destruct (checkRateLimit rt toolName s) as [|m s1|[] s1];
    [destruct Hc|apply Hh|].
  unfold bind, in_world. pose proof (Hop (world s1)) as Ho.
  destruct (op (world s1)) as [|m w2|a w2]; [destruct Ho|apply Hh|].
  destruct (Hk a {| requestCounts := requestCounts s1; world := w2 |})
    as (resp & s'' & E).
  rewrite E. eexists _, _. reflexivity.
Qed.

Variable exec : jsstring -> M W AppleScriptResult.t.
Variable accountName : jsstring.
Hypothesis exec_settles : forall script w, settles (exec script w).

Ltac settle :=
  repeat first
    [ exact I
    | apply exec_settles
    | apply lift_settles
    | apply bind_settles; [|intros]
    | apply mapM_settles; intros
    | match goal with
      | |- settles ((if ?b then _ else _) _) => destruct b
      end ].

Lemma createNote_settles title content tags folder w :
  settles (createNote rt exec accountName title content tags folder w).
Proof. rewrite createNote_unfold. unfold new_note. settle. Qed.

Lemma searchNotes_settles query w :
  settles (searchNotes rt exec accountName query w).
Proof. unfold searchNotes. cbv zeta. settle. Qed.

Lemma getNoteContent_settles title w :
  settles (getNoteContent exec accountName title w).
Proof. unfold getNoteContent. cbv zeta. settle. Qed.

Lemma editNote_settles title newContent w :
  settles (editNote rt exec accountName title newContent w).
Proof. unfold editNote. cbv zeta. settle. Qed.

Lemma deleteNote_settles title w :
  settles (deleteNote exec accountName title w).
Proof. unfold deleteNote. cbv zeta. settle. Qed.

Lemma getAccounts_settles w : settles (getAccounts exec w).
Proof. unfold getAccounts. cbv zeta. settle. Qed.

Lemma getFolders_settles w : settles (getFolders rt exec accountName w).
Proof. unfold getFolders. cbv zeta. settle. Qed.

Lemma moveNote_settles noteTitle targetFolderName w :
  settles (moveNote exec accountName noteTitle targetFolderName w).
Proof. unfold moveNote. cbv zeta. settle. Qed.

End ToolFacts.

(** X18.  No tool handler throws, whatever the executor does, a throwing
    or a hanging one included: a handler returns a response or waits. *)
Theorem tools_never_throw
  (W : Type) (rt : Runtime W) (exec : jsstring -> M W AppleScriptResult.t)
  (accountName : jsstring) (s : Server W) :
  (forall title content tags folder,
      never_throws
        (create_note_tool rt exec accountName title content tags folder s))
  /\ (forall query,
        never_throws (search_notes_tool rt exec accountName query s))
  /\ (forall title,
        never_throws (get_note_content_tool rt exec accountName title s))
  /\ (forall title newContent,
        never_throws (edit_note_tool rt exec accountName title newContent s))
  /\ (forall title,
        never_throws (delete_note_tool rt exec accountName title s))
  /\ never_throws (list_accounts_tool exec accountName s)
  /\ never_throws (list_folders_tool rt exec accountName s)
  /\ (forall title targetFolder,
        never_throws
          (move_note_tool rt exec accountName title targetFolder s)).
Proof.
  repeat split; intros; apply try_catch_never_throws; intros; exact I.
Qed.

(** X19.  A call that finds the window of its tool full and still open
    is answered with the rate-limit message as an error, and no command is
    run: besides the reading of the clock the world is left as it was, and
    so is the map of windows. *)
Theorem rate_limited_tools_run_nothing
  (W : Type) (rt : Runtime W) (exec : jsstring -> M W AppleScriptResult.t)
  (accountName : jsstring) (s : Server W) (now : Z) (w' : W)
  (full : RateWindow.t) :
  newDate rt (world s) = (now, w') ->
  (now <= RateWindow.resetTime full)%Z ->
  (MAX_REQUESTS_PER_WINDOW <= RateWindow.count full)%Z ->
  let refused :=
    Returned
      (error_response (lit "Rate limit exceeded. Please try again later."))
      {| requestCounts := requestCounts s; world := w' |} in
  (forall title content tags folder,
      requestCounts s (lit "create-note") = Some full ->
      create_note_tool rt exec accountName title content tags folder s
      = refused)
  /\ (forall query,
        requestCounts s (lit "search-notes") = Some full ->
        search_notes_tool rt exec accountName query s = refused)
  /\ (forall title,
        requestCounts s (lit "get-note-content") = Some full ->
        get_note_content_tool rt exec accountName title s = refused)
  /\ (forall title newContent,
        requestCounts s (lit "edit-note") = Some full ->
        edit_note_tool rt exec accountName title newContent s = refused)
  /\ (forall title,
        requestCounts s (lit "delete-note") = Some full ->
        delete_note_tool rt exec accountName title s = refused)
  /\ (requestCounts s (lit "list-folders") = Some full ->
      list_folders_tool rt exec accountName s = refused)
  /\ (forall title targetFolder,
        requestCounts s (lit "move-note") = Some full ->
        move_note_tool rt exec accountName title targetFolder s = refused).
Proof.
  intros Hn Ht Hc refused.
  repeat split; intros;
    match goal with
    | Hl : requestCounts s ?tool = Some full |- ?t = refused =>
        exact (guarded_rejected W rt tool _ _ _ s now w' full Hn Hl Ht Hc)
    end.
Qed.

Lemma rate_limited_tools_run_nothing_witness :
  search_notes_tool (ticking_runtime 1000 "") (fun _ _ => Pending)
    (lit "iCloud") (lit "milk")
    {| requestCounts :=
         map_set map_empty (lit "search-notes") (RateWindow.make 30 60000);
       world := 0 |}
  = Returned
      (error_response (lit "Rate limit exceeded. Please try again later."))
      {| requestCounts :=
           map_set map_empty (lit "search-notes") (RateWindow.make 30 60000);
         world := 1 |}.
Proof.
  assert (H1 : (0 <= 60000)%Z) by lia.
  assert (H2 : (MAX_REQUESTS_PER_WINDOW <= 30)%Z)
    by (unfold MAX_REQUESTS_PER_WINDOW; lia).
  exact (proj1 (proj2
           (rate_limited_tools_run_nothing nat (ticking_runtime 1000 "")
              (fun _ _ => Pending) (lit "iCloud")
              {| requestCounts :=
                   map_set map_empty (lit "search-notes")
                     (RateWindow.make 30 60000);
                 world := 0 |}
              0%Z 1 (RateWindow.make 30 60000) eq_refl H1 H2))
           (lit "milk") eq_refl).
Defined.

Section ToolResults.

Variable W : Type.
Variable rt : Runtime W.
Variable exec : jsstring -> M W AppleScriptResult.t.
Variable accountName : jsstring.

Lemma guarded_accepted {A} toolName (op : M W A) k h s s1 a w' :
  checkRateLimit rt toolName s = Returned tt s1 ->
  op (world s1) = Returned a w' ->
  guarded rt toolName op k h s
  = try_catch (k a) h {| requestCounts := requestCounts s1; world := w' |}.
Proof.
  intros Hc Ho. unfold guarded, try_catch. unfold bind at 1. rewrite Hc.
  unfold bind, in_world. rewrite Ho. reflexivity.
Qed.

Lemma editNote_shapes title newContent w res w' :
  editNote rt exec accountName title newContent w = Returned res w' ->
  OpResult.success res = true
  \/ OpResult.error res = Some (lit "Failed to update note")
  \/ OpResult.error res = Some (lit "Note not found").
Proof.
  unfold editNote. unfold bind at 1. cbv zeta.
  destruct (exec _ w) as [|m w1|r w1]; try discriminate.
  destruct (AppleScriptResult.success r); cbn [negb].
  - destruct (strict_eq _ _).
    + intros H. injection H as <- _. right. right. reflexivity.
    + unfold bind, lift, ret.
      destruct (randomUUID rt w1) as [id v1].
      destruct (newDate rt v1) as [created v2].
      destruct (newDate rt v2) as [modified v3].
      intros H. injection H as <- _. left. reflexivity.
  - intros H. injection H as <- _. right. left. reflexivity.
Qed.

Lemma deleteNote_shapes title w res w' :
  deleteNote exec accountName title w = Returned res w' ->
  OpResult.success res = true
  \/ OpResult.error res = Some (lit "Failed to delete note")
  \/ OpResult.error res = Some (lit "Note not found").
Proof.
  unfold deleteNote. unfold bind at 1. cbv zeta.
  destruct (exec _ w) as [|m w1|r w1]; try discriminate.
  destruct (AppleScriptResult.success r); cbn [negb].
  - destruct (strict_eq _ _); intros H; injection H as <- _;
      [right; right; reflexivity|left; reflexivity].
  - intros H. injection H as <- _. right. left. reflexivity.
Qed.

Lemma moveNote_shapes noteTitle targetFolderName w res w' :
  moveNote exec accountName noteTitle targetFolderName w = Returned res w' ->
  OpResult.success res = true
  \/ OpResult.error res = Some (lit "Failed to move note")
  \/ OpResult.error res = Some (lit "Target folder not found")
  \/ OpResult.error res = Some (lit "Note not found").
Proof.
  unfold moveNote. unfold bind at 1. cbv zeta.
  destruct (exec _ w) as [|m w1|r w1]; try discriminate.
  destruct (AppleScriptResult.success r); cbn [negb].
  - destruct (strict_eq _ (lit "folder not found")).
    + intros H. injection H as <- _. right. right. left. reflexivity.
    + destruct (strict_eq _ _); intros H; injection H as <- _;
        [right; right; right; reflexivity|left; reflexivity].
  - intros H. injection H as <- _. right. left. reflexivity.
Qed.

Lemma getNoteContent_success title w r w' :
  exec (getNoteContent_script (sanitizeForAppleScript accountName)
          (sanitizeForAppleScript title)) w = Returned r w' ->
  AppleScriptResult.success r = true ->
  getNoteContent exec accountName title w
  = Returned (AppleScriptResult.output r) w'.
Proof.
  intros H Hs. unfold getNoteContent, bind. cbv zeta. rewrite H, Hs.
  reflexivity.
Qed.

End ToolResults.

(** X20.  The responses of the tools do not depend on the error text of
    the outcomes: under two executors whose outcomes differ at most in
    that text, every tool gives the same response and leaves the same
    state. *)
Theorem tool_responses_hide_error_text
  (W : Type) (rt : Runtime W)
  (exec1 exec2 : jsstring -> M W AppleScriptResult.t)
  (accountName : jsstring) (s : Server W) :
  same_but_error exec1 exec2 ->
  (forall title content tags folder,
      create_note_tool rt exec1 accountName title content tags folder s
      = create_note_tool rt exec2 accountName title content tags folder s)
  /\ (forall query,
        search_notes_tool rt exec1 accountName query s
        = search_notes_tool rt exec2 accountName query s)
  /\ (forall title,
        get_note_content_tool rt exec1 accountName title s
        = get_note_content_tool rt exec2 accountName title s)
  /\ (forall title newContent,
        edit_note_tool rt exec1 accountName title newContent s
        = edit_note_tool rt exec2 accountName title newContent s)
  /\ (forall title,
        delete_note_tool rt exec1 accountName title s
        = delete_note_tool rt exec2 accountName title s)
  /\ list_accounts_tool exec1 accountName s
     = list_accounts_tool exec2 accountName s
  /\ list_folders_tool rt exec1 accountName s
     = list_folders_tool rt exec2 accountName s
  /\ (forall title targetFolder,
        move_note_tool rt exec1 accountName title targetFolder s
        = move_note_tool rt exec2 accountName title targetFolder s).
Proof.
  intros Hagree.
  split; [|split; [|split; [|split; [|split; [|split; [|split]]]]]].
  - intros title content tags folder.
    refine (guarded_ext W rt (lit "create-note") _ _ _ _ s _).
    intros w. apply createNote_same. exact Hagree.
  - intros query.
    refine (guarded_ext W rt (lit "search-notes") _ _ _ _ s _).
    intros w. apply searchNotes_same. exact Hagree.
  - intros title.
    refine (guarded_ext W rt (lit "get-note-content") _ _ _ _ s _).
    intros w. apply getNoteContent_same. exact Hagree.
  - intros title newContent.
    refine (guarded_ext W rt (lit "edit-note") _ _ _ _ s _).
    intros w. apply editNote_same. exact Hagree.
  - intros title.
    refine (guarded_ext W rt (lit "delete-note") _ _ _ _ s _).
    intros w. apply deleteNote_same. exact Hagree.
  - unfold list_accounts_tool, try_catch, bind, in_world.
    rewrite (getAccounts_same W exec1 exec2 Hagree). reflexivity.
  - refine (guarded_ext W rt (lit "list-folders") _ _ _ _ s _).
    intros w. apply getFolders_same. exact Hagree.
  - intros title targetFolder.
    refine (guarded_ext W rt (lit "move-note") _ _ _ _ s _).
    intros w. apply moveNote_same. exact Hagree.
Qed.

Lemma tool_responses_hide_error_text_witness :
  get_note_content_tool never_spawns (runAppleScript never_spawns)
    (lit "iCloud") (lit "List") (fresh_server 0)
  = get_note_content_tool never_spawns (runAppleScript failing_runtime)
      (lit "iCloud") (lit "List") (fresh_server 0).
Proof.
  assert (Hagree : same_but_error (runAppleScript never_spawns)
                     (runAppleScript failing_runtime)).
  { intros script w0. reflexivity. }
  exact (proj1 (proj2 (proj2
           (tool_responses_hide_error_text nat never_spawns
              (runAppleScript never_spawns) (runAppleScript failing_runtime)
              (lit "iCloud") (fresh_server 0) Hagree)))
           (lit "List")).
Defined.

(** X21.  Whatever the executor does, an error response of a tool other
    than [create-note] carries a rate-limit message or one of the fixed
    texts of that tool: the generic failure text, or the not-found texts
    of the manager.  Nothing else reaches the caller as an error. *)
Theorem tool_errors_are_fixed_texts
  (W : Type) (rt : Runtime W) (exec : jsstring -> M W AppleScriptResult.t)
  (accountName : jsstring) (s : Server W) :
  (forall query,
      match search_notes_tool rt exec accountName query s with
      | Returned resp _ =>
          error_text_among [lit "Failed to search notes"] resp = true
      | _ => True
      end)
  /\ (forall title,
        match get_note_content_tool rt exec accountName title s with
        | Returned resp _ =>
            error_text_among [lit "Failed to retrieve note"] resp = true
        | _ => True
        end)
  /\ (forall title newContent,
        match edit_note_tool rt exec accountName title newContent s with
        | Returned resp _ =>
            error_text_among
              [lit "Failed to edit note"; lit "Failed to update note";
               lit "Note not found"] resp = true
        | _ => True
        end)
  /\ (forall title,
        match delete_note_tool rt exec accountName title s with
        | Returned resp _ =>
            error_text_among
              [lit "Failed to delete note"; lit "Note not found"] resp = true
        | _ => True
        end)
  /\ match list_accounts_tool exec accountName s with
     | Returned resp _ =>
         isError resp = true -> text resp = lit "Failed to list accounts"
     | _ => True
     end
  /\ match list_folders_tool rt exec accountName s with
     | Returned resp _ =>
         error_text_among [lit "Failed to list folders"] resp = true
     | _ => True
     end
  /\ (forall title targetFolder,
        match move_note_tool rt exec accountName title targetFolder s with
        | Returned resp _ =>
            error_text_among
              [lit "Failed to move note"; lit "Target folder not found";
               lit "Note not found"] resp = true
        | _ => True
        end).
Proof.
  split; [|split; [|split; [|split; [|split; [|split]]]]].
  - intros query.
    refine (guarded_among W rt (lit "search-notes") _ _ _ _ s _ _);
      [left; reflexivity|].
    intros notes w w' s' _. reflexivity.
  - intros title.
    refine (guarded_among W rt (lit "get-note-content") _ _ _ _ s _ _);
      [left; reflexivity|].
    intros content w w' s' _. reflexivity.
  - intros title newContent.
    refine (guarded_among W rt (lit "edit-note") _ _ _ _ s _ _);
      [left; reflexivity|].
    intros res w w' s' Hres. cbv beta.
    destruct (editNote_shapes W rt exec _ _ _ _ _ _ Hres) as [H|[H|H]].
    + rewrite H. reflexivity.
    + destruct (OpResult.success res); [reflexivity|].
      cbn [negb]. rewrite H. reflexivity.
    + destruct (OpResult.success res); [reflexivity|].
      cbn [negb]. rewrite H. reflexivity.
  - intros title.
    refine (guarded_among W rt (lit "delete-note") _ _ _ _ s _ _);
      [left; reflexivity|].
    intros res w w' s' Hres. cbv beta.
    destruct (deleteNote_shapes W exec _ _ _ _ _ Hres) as [H|[H|H]].
    + rewrite H. reflexivity.
    + destruct (OpResult.success res); [reflexivity|].
      cbn [negb]. rewrite H. reflexivity.
    + destruct (OpResult.success res); [reflexivity|].
      cbn [negb]. rewrite H. reflexivity.
  - unfold list_accounts_tool, try_catch, bind, in_world.
    destruct (getAccounts exec (world s)) as [|m w1|accounts w1]; simpl;
      [exact I|intros _; reflexivity|intros H; discriminate H].
  - refine (guarded_among W rt (lit "list-folders") _ _ _ _ s _ _);
      [left; reflexivity|].
    intros folders w w' s' _. destruct folders; reflexivity.
  - intros title targetFolder.
    refine (guarded_among W rt (lit "move-note") _ _ _ _ s _ _);
      [left; reflexivity|].
    intros res w w' s' Hres. cbv beta.
    destruct (moveNote_shapes W exec _ _ _ _ _ _ Hres) as [H|[H|[H|H]]].
    + rewrite H. reflexivity.
    + destruct (OpResult.success res); [reflexivity|].
      cbn [negb]. rewrite H. reflexivity.
    + destruct (OpResult.success res); [reflexivity|].
      cbn [negb]. rewrite H. reflexivity.
    + destruct (OpResult.success res); [reflexivity|].
      cbn [negb]. rewrite H. reflexivity.
Qed.

(** X22.  When the call is let through and the command succeeds with an
    empty output, the tools answer with a plain message that is no error:
    [search-notes] that no note was found, [get-note-content] that the
    note was not found, [list-folders] that there are no folders. *)
Theorem empty_output_is_a_plain_answer
  (W : Type) (rt : Runtime W) (exec : jsstring -> M W AppleScriptResult.t)
  (accountName : jsstring) (s s1 : Server W) (r : AppleScriptResult.t)
  (w' : W) :
  AppleScriptResult.success r = true ->
  AppleScriptResult.output r = [] ->
  (forall script, exec script (world s1) = Returned r w') ->
  (forall query,
      checkRateLimit rt (lit "search-notes") s = Returned tt s1 ->
      search_notes_tool rt exec accountName query s
      = Returned (text_response (lit "No notes found matching your query"))
          {| requestCounts := requestCounts s1; world := w' |})
  /\ (forall title,
        checkRateLimit rt (lit "get-note-content") s = Returned tt s1 ->
        get_note_content_tool rt exec accountName title s
        = Returned (text_response (lit "Note not found"))
            {| requestCounts := requestCounts s1; world := w' |})
  /\ (checkRateLimit rt (lit "list-folders") s = Returned tt s1 ->
      list_folders_tool rt exec accountName s
      = Returned
          (text_response (lit "No folders found in the current account"))
          {| requestCounts := requestCounts s1; world := w' |}).
Proof.
  intros Hs Ho Hexec.
  assert (Hb : trim (AppleScriptResult.output r) = [])
    by (rewrite Ho; reflexivity).
  split; [|split].
  - intros query Hc.
    exact (guarded_accepted W rt (lit "search-notes") _ _ _ s s1 [] w' Hc
             (searchNotes_blank W rt exec accountName query _ r w'
                (Hexec _) Hs Hb)).
  - intros title Hc.
    pose proof (getNoteContent_success W exec accountName title _ r w'
                  (Hexec _) Hs) as Hg.
    rewrite Ho in Hg.
    exact (guarded_accepted W rt (lit "get-note-content") _ _ _ s s1 [] w'
             Hc Hg).
  - intros Hc.
    exact (guarded_accepted W rt (lit "list-folders") _ _ _ s s1 [] w' Hc
             (getFolders_blank W rt exec accountName _ r w'
                (Hexec _) Hs Hb)).
Qed.

Lemma empty_output_is_a_plain_answer_witness :
  get_note_content_tool (ticking_runtime 1000 "")
    (runAppleScript (ticking_runtime 1000 ""))
    (lit "iCloud") (lit "List") (fresh_server 0)
  = Returned (text_response (lit "Note not found"))
      {| requestCounts :=
           map_set map_empty (lit "get-note-content")
             (RateWindow.make 1 60000);
         world := 2 |}.
Proof.
  exact (proj1 (proj2
           (empty_output_is_a_plain_answer nat (ticking_runtime 1000 "")
              (runAppleScript (ticking_runtime 1000 ""))
              (lit "iCloud") (fresh_server 0)
              {| requestCounts :=
                   map_set map_empty (lit "get-note-content")
                     (RateWindow.make 1 60000);
                 world := 1 |}
              (AppleScriptResult.make true [] None) 2
              eq_refl eq_refl (fun script => eq_refl)))
           (lit "List") eq_refl).
Defined.

(** X23.  When the executor always settles, every tool call is answered:
    each handler returns a response. *)
Theorem tools_answer_when_executor_settles
  (W : Type) (rt : Runtime W) (exec : jsstring -> M W AppleScriptResult.t)
  (accountName : jsstring) (s : Server W) :
  (forall script w, settles (exec script w)) ->
  (forall title content tags folder,
      exists resp s',
        create_note_tool rt exec accountName title content tags folder s
        = Returned resp s')
  /\ (forall query,
        exists resp s',
          search_notes_tool rt exec accountName query s = Returned resp s')
  /\ (forall title,
        exists resp s',
          get_note_content_tool rt exec accountName title s
          = Returned resp s')
  /\ (forall title newContent,
        exists resp s',
          edit_note_tool rt exec accountName title newContent s
          = Returned resp s')
  /\ (forall title,
        exists resp s',
          delete_note_tool rt exec accountName title s = Returned resp s')
  /\ (exists resp s', list_accounts_tool exec accountName s = Returned resp s')
  /\ (exists resp s',
         list_folders_tool rt exec accountName s = Returned resp s')
  /\ (forall title targetFolder,
        exists resp s',
          move_note_tool rt exec accountName title targetFolder s
          = Returned resp s').
Proof.
  intros Hexec.
  assert (Hh : forall fixed message (s' : Server W),
             exists resp s'', rate_limit_or fixed message s'
                              = Returned resp s'')
    by (intros; eexists _, _; reflexivity).
  split; [|split; [|split; [|split; [|split; [|split; [|split]]]]]].
  - intros title content tags folder.
    refine (guarded_returns W rt (lit "create-note") _ _ _ s _ _ _).
    + intros w. apply createNote_settles. exact Hexec.
    + intros note s'. eexists _, _. reflexivity.
    + intros message s'. eexists _, _. reflexivity.
  - intros query.
    refine (guarded_returns W rt (lit "search-notes") _ _ _ s _ _ (Hh _)).
    + intros w. apply searchNotes_settles. exact Hexec.
    + intros notes s'. eexists _, _. reflexivity.
  - intros title.
    refine (guarded_returns W rt (lit "get-note-content") _ _ _ s _ _ (Hh _)).
    + intros w. apply getNoteContent_settles. exact Hexec.
    + intros content s'. eexists _, _. reflexivity.
  - intros title newContent.
    refine (guarded_returns W rt (lit "edit-note") _ _ _ s _ _ (Hh _)).
    + intros w. apply editNote_settles. exact Hexec.
    + intros res s'. destruct (OpResult.success res);
        eexists _, _; reflexivity.
  - intros title.
    refine (guarded_returns W rt (lit "delete-note") _ _ _ s _ _ (Hh _)).
    + intros w. apply deleteNote_settles. exact Hexec.
    + intros res s'. destruct (OpResult.success res);
        eexists _, _; reflexivity.
  - unfold list_accounts_tool, try_catch, bind, in_world.
    pose proof (getAccounts_settles W exec Hexec (world s)) as Hg.
    destruct (getAccounts exec (world s)) as [|m w1|accounts w1];
      [destruct Hg| |]; eexists _, _; reflexivity.
  - refine (guarded_returns W rt (lit "list-folders") _ _ _ s _ _ (Hh _)).
    + intros w. apply getFolders_settles. exact Hexec.
    + intros folders s'. destruct folders; eexists _, _; reflexivity.
  - intros title targetFolder.
    refine (guarded_returns W rt (lit "move-note") _ _ _ s _ _ (Hh _)).
    + intros w. apply moveNote_settles. exact Hexec.
    + intros res s'. destruct (OpResult.success res);
        eexists _, _; reflexivity.
Qed.

Lemma tools_answer_when_executor_settles_witness :
  exists resp s',
    move_note_tool failing_runtime (runAppleScript failing_runtime)
      (lit "iCloud") (lit "List") (lit "Home") (fresh_server 0)
    = Returned resp s'.
Proof.
  exact (proj2 (proj2 (proj2 (proj2 (proj2 (proj2 (proj2
           (tools_answer_when_executor_settles nat failing_runtime
              (runAppleScript failing_runtime) (lit "iCloud") (fresh_server 0)
              (fun script w => I))))))))
           (lit "List") (lit "Home")).
Defined.

(* --------------------------------------------------------------------- *)
(** *** Titles the schema accepts *)
(* --------------------------------------------------------------------- *)

Lemma title_char_ok_facts (c : char) :
  title_char_ok c = true -> c <> dquote /\ (32 <= c)%N.
Proof.
  unfold title_char_ok. intros H. apply negb_true_iff in H.
  apply orb_false_iff in H as [H Hle]. apply orb_false_iff in H as [H _].
  apply orb_false_iff in H as [H _]. apply orb_false_iff in H as [H _].
  apply orb_false_iff in H as [_ Hq].
  apply N.eqb_neq in Hq. apply N.leb_gt in Hle. split; [exact Hq|lia].
Qed.

Lemma title_char_escape (c : char) :
  title_char_ok c = true ->
  apply_steps [(backslash, [backslash; backslash]); (squote, squote_idiom)]
    [c] = escape_char c
  /\ Forall (fun x => (32 <= x)%N) (escape_char c).
Proof.
  intros H. destruct (title_char_ok_facts c H) as [Hq Hge].
  unfold escape_char.
  destruct (N.eqb_spec c backslash) as [->|Hb].
  { split; [reflexivity|repeat constructor; discriminate]. }
  destruct (N.eqb_spec c dquote) as [->|_]; [congruence|].
  destruct (N.eqb_spec c squote) as [->|Hs].
  { split; [reflexivity|repeat constructor; discriminate]. }
  destruct (N.eqb_spec c LF) as [->|_]; [exfalso; revert Hge; discriminate|].
  destruct (N.eqb_spec c CR) as [->|_]; [exfalso; revert Hge; discriminate|].
  destruct (N.eqb_spec c TAB) as [->|_]; [exfalso; revert Hge; discriminate|].
  split.
  - unfold apply_steps. cbn [fold_left fst snd].
    rewrite !replaceAll_other by assumption. reflexivity.
  - repeat constructor. exact Hge.
Qed.

(** X24.  A title the schema accepts is not empty and holds no double
    quote and no control character, so that sanitizing it comes down to
    two of the six steps, the one for the backslash and the one for the
    single quote, and the sanitized title holds no control character. *)
Theorem accepted_title_needs_two_steps (title : jsstring) :
  title_schema title = true ->
  title <> []
  /\ ~ In dquote title
  /\ sanitizeForAppleScript title
     = replaceAll squote squote_idiom
         (replaceAll backslash [backslash; backslash] title)
  /\ Forall (fun c => (32 <= c)%N) (sanitizeForAppleScript title).
Proof.
  unfold title_schema. intros H.
  apply andb_true_iff in H as [H Hall]. apply andb_true_iff in H as [Hmin _].
  split; [intros ->; discriminate Hmin|]. clear Hmin.
  assert (G : ~ In dquote title
              /\ sanitizeForAppleScript title
                 = apply_steps [(backslash, [backslash; backslash]);
                                (squote, squote_idiom)] title
              /\ Forall (fun c => (32 <= c)%N) (sanitizeForAppleScript title)).
  { induction title as [|c t IH]; [repeat split; [tauto|constructor]|].
    simpl in Hall. apply andb_true_iff in Hall as [Hc Ht].
    destruct (IH Ht) as (IH1 & IH2 & IH3).
    destruct (title_char_escape c Hc) as [E1 E2].
    destruct (title_char_ok_facts c Hc) as [Hq _].
    split; [|split].
    - intros [Heq|Hin]; [congruence|exact (IH1 Hin)].
    - rewrite sanitize_cons.
      change (c :: t) with ([c] ++ t).
      rewrite apply_steps_app, E1, IH2. reflexivity.
    - rewrite sanitize_cons. apply Forall_app. split; assumption. }
  exact G.
Qed.

Lemma accepted_title_needs_two_steps_witness :
  title_schema (lit "Tom's list") = true
  /\ sanitizeForAppleScript (lit "Tom's list")
     = replaceAll squote squote_idiom
         (replaceAll backslash [backslash; backslash] (lit "Tom's list")).
Proof.
  split; [reflexivity|].
  exact (proj1 (proj2 (proj2
           (accepted_title_needs_two_steps (lit "Tom's list") eq_refl)))).
Defined.
